(** * Field-visibility scripts of the admin panel and the header drawer

    A shallow embedding of [staticfiles/admin/js/offers_dynamic.js] (both
    variants kept in that file: [initOfferTypeFields] with its closure
    [toggleOfferFields], and [initOfferTypeToggles] with its closure
    [toggleFields]) and of the drawer part of [staticfiles/js/header.js].

    The scripts never insert, remove or re-label elements.  The element tree
    is therefore a read-only value, an element is named by its position in
    that tree, and what the scripts do write ([style.display], the listener
    lists, [classList]) lives in a store keyed by element. *)

From Stdlib Require Import String Ascii.
From stdpp Require Import base option list gmap strings.

Set Warnings "-register-all".
Open Scope string_scope.
Open Scope list_scope.

(** ** Strings *)

(** [String.prototype.toLowerCase].  A string is its sequence of bytes; the
    letters A to Z are mapped to a to z and every other byte is kept, which
    is what JavaScript does to every string whose lower case can be one of
    the four mode names. *)
Definition lower_ascii (c : ascii) : ascii :=
  let n := nat_of_ascii c in
  if (65 <=? n)%nat && (n <=? 90)%nat then ascii_of_nat (n + 32) else c.

Fixpoint toLowerCase (s : string) : string :=
  match s with
  | EmptyString => EmptyString
  | String c s' => String (lower_ascii c) (toLowerCase s')
  end.

(** [s] ends with [suf], as the attribute selector [[id$=suf]] tests it:
    an empty [suf] matches nothing. *)
Fixpoint has_suffix (suf s : string) : bool :=
  String.eqb suf s ||
  match s with
  | EmptyString => false
  | String _ s' => has_suffix suf s'
  end.

Definition ends_with (suf s : string) : bool :=
  negb (String.eqb suf "") && has_suffix suf s.

(** [Array.prototype.includes] on an array of strings. *)
Definition includes (l : list string) (x : string) : bool :=
  existsb (String.eqb x) l.

(** ** The element tree

    An element with what the selectors of the scripts look at: its tag name
    (in lower case, as selectors match it in an HTML document), its [id]
    (empty when it has none), its classes, and its child elements. *)

Inductive element : Type :=
  Element (tag : string) (id : string) (classes : list string)
          (children : list element).

Definition tag (e : element) : string :=
  match e with Element t _ _ _ => t end.
Definition id (e : element) : string :=
  match e with Element _ i _ _ => i end.
Definition classes (e : element) : list string :=
  match e with Element _ _ c _ => c end.
Definition children (e : element) : list element :=
  match e with Element _ _ _ cs => cs end.

(** An element is named by the child indexes leading to it from the root
    element of the document. *)
Abbreviation path := (list nat).

Fixpoint lookup_element (e : element) (p : path) : option element :=
  match p with
  | [] => Some e
  | i :: p' =>
      match children e !! i with
      | Some c => lookup_element c p'
      | None => None
      end
  end.

(** The elements of a subtree in document order (the element itself first),
    each with its path relative to the subtree's root. *)
Fixpoint subtree (e : element) : list (path * element) :=
  match e with
  | Element _ _ _ cs =>
      ([], e) ::
      (fix forest (i : nat) (l : list element) : list (path * element) :=
         match l with
         | [] => []
         | c :: l' =>
             map (fun pe => (i :: pe.1, pe.2)) (subtree c) ++ forest (S i) l'
         end) 0 cs
  end.

(** The subtrees of a list of siblings, the first being child number [i]. *)
Fixpoint forest (i : nat) (l : list element) : list (path * element) :=
  match l with
  | [] => []
  | c :: l' =>
      map (fun pe => (i :: pe.1, pe.2)) (subtree c) ++ forest (S i) l'
  end.

(** The proper descendants of an element, in document order. *)
Definition descendants (e : element) : list (path * element) :=
  tail (subtree e).

(** ** Selectors

    A selector is the test it performs on one element. *)
Definition selector := element -> bool.

Definition has_class (c : string) : selector :=
  fun e => existsb (String.eqb c) (classes e).
Definition has_tag (t : string) : selector :=
  fun e => String.eqb t (tag e).
Definition id_ends_with (suf : string) : selector :=
  fun e => ends_with suf (id e).
Definition sel_and (a b : selector) : selector := fun e => a e && b e.
Definition sel_or (a b : selector) : selector := fun e => a e || b e.

(** ["div.inline-related, .inline-group"] *)
Definition sel_inline_or_group : selector :=
  sel_or (sel_and (has_tag "div") (has_class "inline-related"))
         (has_class "inline-group").
(** ["div.inline-related"] *)
Definition sel_inline_related : selector :=
  sel_and (has_tag "div") (has_class "inline-related").
(** ["select[id$='offer_type']"] *)
Definition sel_offer_type : selector :=
  sel_and (has_tag "select") (id_ends_with "offer_type").
(** [`.form-row, .field-${f}`] *)
Definition sel_form_row_or_field (f : string) : selector :=
  sel_or (has_class "form-row") (has_class ("field-" +:+ f)).

(** ** The query primitives of the DOM *)

(** The paths of the listed elements that a selector accepts. *)
Definition matching (sel : selector) (l : list (path * element)) : list path :=
  map fst (filter (fun pe => sel pe.2 = true) l).

(** [scope.querySelectorAll(sel)], the scope [None] being [document] and
    [Some p] the element [p]: on [document] every element of the page is a
    candidate, on an element only its proper descendants are.  The answers
    come in document order. *)
Definition querySelectorAll (doc : element) (scope : option path)
    (sel : selector) : list path :=
  match scope with
  | None => matching sel (subtree doc)
  | Some p =>
      match lookup_element doc p with
      | Some e => map (app p) (matching sel (descendants e))
      | None => []
      end
  end.

(** [scope.querySelector(sel)]: the first match in document order. *)
Definition querySelector (doc : element) (scope : option path)
    (sel : selector) : option path :=
  head (querySelectorAll doc scope sel).

Definition matches (doc : element) (sel : selector) (p : path) : bool :=
  match lookup_element doc p with
  | Some e => sel e
  | None => false
  end.

(** [el.closest(sel)]: the nearest of [el] and its ancestors that matches;
    [closest_from doc sel p n] starts at the ancestor of depth [n]. *)
Fixpoint closest_from (doc : element) (sel : selector) (p : path) (n : nat)
    : option path :=
  if matches doc sel (take n p) then Some (take n p)
  else match n with
       | O => None
       | S n' => closest_from doc sel p n'
       end.

Definition closest (doc : element) (sel : selector) (p : path) : option path :=
  closest_from doc sel p (length p).

(** ** The mutable part of the page *)

(** A registered change listener is one of the two closures, with the
    [inline] and [select] it captured. *)
Inductive listener : Type :=
  | ToggleOfferFields (inline select : path)
  | ToggleFields (inline select : path).

Record page : Type := Page {
  style_display : gmap path string;      (* el.style.display, "" when unset *)
  select_value : gmap path string;       (* select.value, "" when unset *)
  change_listeners : list (path * listener)  (* in registration order *)
}.

Definition display (st : page) (p : path) : string :=
  default "" (style_display st !! p).

Definition value (st : page) (p : path) : string :=
  default "" (select_value st !! p).

(** [el.style.display = v] *)
Definition set_display (p : path) (v : string) (st : page) : page :=
  Page (<[p := v]> (style_display st)) (select_value st) (change_listeners st).

(** The user picks another option of a select. *)
Definition set_value (p : path) (v : string) (st : page) : page :=
  Page (style_display st) (<[p := v]> (select_value st)) (change_listeners st).

(** [select.addEventListener("change", l)]; every call passes a fresh
    closure, so nothing is deduplicated. *)
Definition addEventListener (p : path) (l : listener) (st : page) : page :=
  Page (style_display st) (select_value st) (change_listeners st ++ [(p, l)]).

(** ** offers_dynamic.js, first variant *)

Definition fields : list string :=
  ["hours"; "classes"; "students"; "instructors"; "level"].

(** The [switch (val)] of [toggleOfferFields]: the value assigned to
    [field.style.display] for field [f]. *)
Definition offer_display (val f : string) : string :=
  if String.eqb val "lesson" then
    if includes ["hours"; "students"; "instructors"] f then "" else "none"
  else if String.eqb val "course" then
    if includes ["classes"; "level"] f then "" else "none"
  else if String.eqb val "experience" then
    if includes ["level"] f then "" else "none"
  else if String.eqb val "rental" then "none"
  else "".

(** [inline.querySelector(`[id$=${f}]`)?.closest(`.form-row, .field-${f}`)
     || inline.querySelector(`.field-${f}`)] *)
Definition offer_field_row (doc : element) (inline : path) (f : string)
    : option path :=
  match querySelector doc (Some inline) (id_ends_with f)
        ≫= closest doc (sel_form_row_or_field f) with
  | Some r => Some r
  | None => querySelector doc (Some inline) (has_class ("field-" +:+ f))
  end.

(** The callback of [fields.forEach] in [toggleOfferFields]. *)
Definition toggleOfferFields_field (doc : element) (inline : path)
    (val : string) (st : page) (f : string) : page :=
  match offer_field_row doc inline f with
  | None => st
  | Some field => set_display field (offer_display val f) st
  end.

(** [toggleOfferFields] over a given array of field names. *)
Definition toggleOfferFields_over (fs : list string) (doc : element)
    (inline select : path) (st : page) : page :=
  let val := toLowerCase (value st select) in
  foldl (toggleOfferFields_field doc inline val) st fs.

Definition toggleOfferFields : element -> path -> path -> page -> page :=
  toggleOfferFields_over fields.

(** The callback of [inlines.forEach] in [initOfferTypeFields]. *)
Definition initOfferTypeFields_inline (doc : element) (st : page)
    (inline : path) : page :=
  match querySelector doc (Some inline) sel_offer_type with
  | None => st
  | Some select =>
      toggleOfferFields doc inline select
        (addEventListener select (ToggleOfferFields inline select) st)
  end.

(** [initOfferTypeFields(context)]; [context || document] is the scope. *)
Definition initOfferTypeFields (doc : element) (context : option path)
    (st : page) : page :=
  foldl (initOfferTypeFields_inline doc) st
        (querySelectorAll doc context sel_inline_or_group).

(** ** offers_dynamic.js, second variant *)

(** The [if]/[else if] chain of [toggleFields]. *)
Definition toggle_display (val f : string) : string :=
  if String.eqb val "lesson" then
    if includes ["hours"; "students"; "instructors"] f then "" else "none"
  else if String.eqb val "course" then
    if includes ["classes"; "level"] f then "" else "none"
  else if String.eqb val "experience" then
    if includes ["level"] f then "" else "none"
  else "none".

(** [inline.querySelector(`[id$=${f}]`)?.closest(".form-row")] *)
Definition toggle_field_row (doc : element) (inline : path) (f : string)
    : option path :=
  querySelector doc (Some inline) (id_ends_with f)
  ≫= closest doc (has_class "form-row").

Definition toggleFields_field (doc : element) (inline : path)
    (val : string) (st : page) (f : string) : page :=
  match toggle_field_row doc inline f with
  | None => st
  | Some field => set_display field (toggle_display val f) st
  end.

Definition toggleFields_over (fs : list string) (doc : element)
    (inline select : path) (st : page) : page :=
  let val := value st select in
  foldl (toggleFields_field doc inline val) st fs.

Definition toggleFields : element -> path -> path -> page -> page :=
  toggleFields_over fields.

Definition initOfferTypeToggles_inline (doc : element) (st : page)
    (inline : path) : page :=
  match querySelector doc (Some inline) sel_offer_type with
  | None => st
  | Some select =>
      toggleFields doc inline select
        (addEventListener select (ToggleFields inline select) st)
  end.

Definition initOfferTypeToggles (doc : element) (context : option path)
    (st : page) : page :=
  foldl (initOfferTypeToggles_inline doc) st
        (querySelectorAll doc context sel_inline_related).

(** ** The events *)

Definition run_listener (doc : element) (l : listener) (st : page) : page :=
  match l with
  | ToggleOfferFields inline select => toggleOfferFields doc inline select st
  | ToggleFields inline select => toggleFields doc inline select st
  end.

(** A change event on [target]: the listeners registered on it run in
    registration order. *)
Definition dispatch_change (doc : element) (target : path) (st : page)
    : page :=
  foldl (fun st tl =>
           if decide (tl.1 = target) then run_listener doc tl.2 st else st)
        st (change_listeners st).

(** The user selects the option with value [v]: the value changes, then the
    change event fires. *)
Definition user_selects (doc : element) (select : path) (v : string)
    (st : page) : page :=
  dispatch_change doc select (set_value select v st).

(** What the handler reads of a ["formset:added"] event:
    [detail_formset_form] is [Some r] when [event.detail.formset] is there,
    [r] being what [$form.get(0)] returns ([None] for [undefined]). *)
Record formset_added : Type := FormsetAdded {
  detail_formset_form : option (option path);
  event_target : path
}.

(** [event.detail && event.detail.formset
       ? event.detail.formset.$form.get(0) : event.target] *)
Definition newForm (ev : formset_added) : option path :=
  match detail_formset_form ev with
  | Some r => r
  | None => Some (event_target ev)
  end.

(** The two handlers of each variant. *)
Definition onDOMContentLoaded_fields (doc : element) (st : page) : page :=
  initOfferTypeFields doc None st.
Definition onFormsetAdded_fields (doc : element) (ev : formset_added)
    (st : page) : page :=
  initOfferTypeFields doc (newForm ev) st.

Definition onDOMContentLoaded_toggles (doc : element) (st : page) : page :=
  initOfferTypeToggles doc None st.
Definition onFormsetAdded_toggles (doc : element) (ev : formset_added)
    (st : page) : page :=
  initOfferTypeToggles doc (newForm ev) st.

(** ** Both closures as one sequence of writes

    Either closure visits the array of field names and, for each name whose
    row it finds, assigns one value to that row's [style.display]. *)
Definition write_field (row : string -> option path)
    (disp : string -> string) (st : page) (f : string) : page :=
  match row f with
  | None => st
  | Some r => set_display r (disp f) st
  end.

(** What a visit of [f] leaves in [style.display] of element [q], given
    what was there. *)
Definition last_write (row : string -> option path)
    (disp : string -> string) (q : path) (acc : option string) (f : string)
    : option string :=
  if decide (row f = Some q) then Some (disp f) else acc.

(** Either initialization visits the matched containers in document order;
    the two differ in how a row is looked up ([row]), in the value assigned
    ([disp]), in what is done to the selector value first ([norm]) and in
    the closure registered ([mk]). *)
Definition visit_inline (row : path -> string -> option path)
    (disp : string -> string -> string) (norm : string -> string)
    (mk : path -> path -> listener) (doc : element) (st : page)
    (inline : path) : page :=
  match querySelector doc (Some inline) sel_offer_type with
  | None => st
  | Some select =>
      let st' := addEventListener select (mk inline select) st in
      foldl (write_field (row inline) (disp (norm (value st' select))))
            st' fields
  end.

(** [r] is an element inside [a], or [a], or an element around [a]: some
    element inside [a] has [r] as itself or an ancestor. *)
Definition reached_from (a r : path) : Prop :=
  exists x, a `prefix_of` x /\ r `prefix_of` x.

(** ** The rule table of the specification

    The four modes and their sets of visible fields, as section 3 of the
    specification lists them; the closures above are compared with it. *)

Definition modes : list string := ["lesson"; "course"; "experience"; "rental"].

Definition rule_table (mode : string) : list string :=
  if String.eqb mode "lesson" then ["hours"; "students"; "instructors"]
  else if String.eqb mode "course" then ["classes"; "level"]
  else if String.eqb mode "experience" then ["level"]
  else [].

(** The display value of a field row that the table asks for. *)
Definition table_display (mode f : string) : string :=
  if includes (rule_table mode) f then "" else "none".

(** ** Sample pages *)

Definition input (i : string) : element := Element "input" i [] [].
Definition form_row (cls : list string) (cs : list element) : element :=
  Element "div" "" ("form-row" :: cls) cs.
Definition field_row (prefix f : string) : element :=
  form_row ["field-" +:+ f] [input (prefix +:+ f)].
Definition offer_select (prefix : string) : element :=
  Element "select" (prefix +:+ "offer_type") [] [].

(** One inline form as the admin renders it: the selector row, then one row
    per field. *)
Definition inline_form (prefix : string) : element :=
  Element "div" "" ["inline-related"]
    (form_row ["field-offer_type"] [offer_select prefix]
     :: map (field_row prefix) fields).

Definition empty_page : page := Page ∅ ∅ [].

Definition html (body : list element) : element :=
  Element "html" "" [] [Element "body" "" [] body].

(** A page with one inline form: the form is [[0; 0]], its selector
    [[0; 0; 0; 0]], and the rows of the five fields [[0; 0; 1]] to
    [[0; 0; 5]]. *)
Definition one_form_doc : element := html [inline_form "id_offers-0-"].

(** Two fields on one line, as the admin renders a tuple of field names:
    one form row holding a box per field. *)
Definition field_box (prefix f : string) : element :=
  Element "div" "" ["fieldBox"; "field-" +:+ f] [input (prefix +:+ f)].
Definition shared_line_form (prefix : string) : element :=
  Element "div" "" ["inline-related"]
    [form_row ["field-offer_type"] [offer_select prefix];
     form_row ["field-hours"; "field-classes"]
       [field_box prefix "hours"; field_box prefix "classes"]].
Definition shared_line_doc : element := html [shared_line_form "id_offers-0-"].

(** Two inputs put directly in one form row, without boxes. *)
Definition plain_line_form (prefix : string) : element :=
  Element "div" "" ["inline-related"]
    [form_row ["field-offer_type"] [offer_select prefix];
     form_row ["field-hours"; "field-classes"]
       [input (prefix +:+ "hours"); input (prefix +:+ "classes")]].
Definition plain_line_doc : element := html [plain_line_form "id_offers-0-"].

(** The selector of the one form of these pages holds [v]. *)
Definition selected (v : string) : page :=
  set_value [0; 0; 0; 0] v empty_page.

(** A page with one inline group of two forms, [[0; 0; 0]] and
    [[0; 0; 1]]; the second has its selector at [[0; 0; 1; 0; 0]] and its
    rows at [[0; 0; 1; 1]] to [[0; 0; 1; 5]]. *)
Definition two_forms_doc : element :=
  html [Element "div" "offers-group" ["inline-group"]
          [inline_form "id_offers-0-"; inline_form "id_offers-1-"]].

(** A form [[0; 0]] with a selector and a row for hours only, holding a
    nested group whose form [[0; 0; 2; 0]] has all five rows. *)
Definition nested_doc : element :=
  html [Element "div" "" ["inline-related"]
          [form_row ["field-offer_type"] [offer_select "id_offers-0-"];
           field_row "id_offers-0-" "hours";
           Element "div" "" ["inline-group"]
             [inline_form "id_offers-0-items-0-"]]].

(** A form without a selector, [[0; 0]], next to a form with one,
    [[0; 1]]. *)
Definition selectorless_form (prefix : string) : element :=
  Element "div" "" ["inline-related"] (map (field_row prefix) fields).
Definition mixed_doc : element :=
  html [selectorless_form "id_offers-0-"; inline_form "id_offers-1-"].

(** An inline group [[0; 0]] whose first form [[0; 0; 0]] has no selector
    (the offer type is read-only there) and whose second form [[0; 0; 1]]
    has one, at [[0; 0; 1; 0; 0]]. *)
Definition group_mixed_doc : element :=
  html [Element "div" "offers-group" ["inline-group"]
          [selectorless_form "id_offers-0-"; inline_form "id_offers-1-"]].

(** A form [[0; 0]] with a selector and no field rows of its own, around
    a form [[0; 0; 1]] with the five rows and no selector. *)
Definition nested_selectorless_doc : element :=
  html [Element "div" "" ["inline-related"]
          [form_row ["field-offer_type"] [offer_select "id_offers-0-"];
           selectorless_form "id_offers-0-items-0-"]].

(** ** header.js, the mobile drawer *)

Inductive error : Type := TypeError.

(** How a handler ends: normally, or by throwing, with the page as the
    statements run so far left it. *)
Inductive outcome (A : Type) : Type :=
  | Ok (a : A)
  | Throw (e : error) (a : A).
Arguments Ok {A} a.
Arguments Throw {A} e a.

(** The click listeners of header.js that concern the drawer: the arrow
    function given to [headerToggle], and [closeDrawer]. *)
Inductive click_listener : Type := OpenDrawer | CloseDrawer.

#[global] Instance click_listener_eq_dec : EqDecision click_listener.
Proof. solve_decision. Defined.

(** The constants of the DOMContentLoaded closure; [None] is [null]. *)
Record drawer_refs : Type := DrawerRefs {
  headerToggle : option path;
  mobileDrawer : option path;
  overlay : option path;
  closeBtn : option path
}.

Record header_page : Type := HeaderPage {
  class_list : gmap path (list string);  (* classList, where written *)
  click_listeners : list (path * click_listener)
}.

(** [document.body], the first body child of the root element. *)
Definition document_body (doc : element) : option path :=
  (fun ic => [ic.1])
  <$> list_find (fun c => has_tag "body" c = true) (children doc).

Definition classList (doc : element) (st : header_page) (p : path)
    : list string :=
  match class_list st !! p with
  | Some l => l
  | None => from_option classes [] (lookup_element doc p)
  end.

(** [el.classList.add(c)] and [el.classList.remove(c)] *)
Definition classList_add (doc : element) (p : path) (c : string)
    (st : header_page) : header_page :=
  let l := classList doc st p in
  HeaderPage (<[p := if includes l c then l else l ++ [c]]> (class_list st))
             (click_listeners st).
Definition classList_remove (doc : element) (p : path) (c : string)
    (st : header_page) : header_page :=
  HeaderPage (<[p := filter (fun x => x <> c) (classList doc st p)]>
                (class_list st))
             (click_listeners st).

(** [el.addEventListener("click", l)]: a function already registered on
    the element is not registered again ([closeDrawer] is one function). *)
Definition add_click_listener (p : path) (l : click_listener)
    (st : header_page) : header_page :=
  if decide ((p, l) ∈ click_listeners st) then st
  else HeaderPage (class_list st) (click_listeners st ++ [(p, l)]).

(** [mobileDrawer.classList.add("is-open");
     document.body.classList.add("no-scroll");] *)
Definition openDrawer (doc : element) (refs : drawer_refs)
    (st : header_page) : outcome header_page :=
  match mobileDrawer refs with
  | None => Throw TypeError st
  | Some d =>
      let st1 := classList_add doc d "is-open" st in
      match document_body doc with
      | None => Throw TypeError st1
      | Some b => Ok (classList_add doc b "no-scroll" st1)
      end
  end.

(** [mobileDrawer.classList.remove("is-open");
     document.body.classList.remove("no-scroll");]
    Reading [classList] of [null] throws a TypeError. *)
Definition closeDrawer (doc : element) (refs : drawer_refs)
    (st : header_page) : outcome header_page :=
  match mobileDrawer refs with
  | None => Throw TypeError st
  | Some d =>
      let st1 := classList_remove doc d "is-open" st in
      match document_body doc with
      | None => Throw TypeError st1
      | Some b => Ok (classList_remove doc b "no-scroll" st1)
      end
  end.

(** The drawer part of the DOMContentLoaded handler: the four queries, then
    the three guarded registrations. *)
Definition header_refs (doc : element) : drawer_refs :=
  DrawerRefs (querySelector doc None (has_class "header-toggle"))
             (querySelector doc None (has_class "mobile-drawer"))
             (querySelector doc None (has_class "mobile-drawer__overlay"))
             (querySelector doc None (has_class "mobile-drawer__close")).

Definition header_onDOMContentLoaded (doc : element) (st : header_page)
    : header_page :=
  let refs := header_refs doc in
  let st1 :=
    match headerToggle refs, mobileDrawer refs with
    | Some t, Some _ => add_click_listener t OpenDrawer st
    | _, _ => st
    end in
  let st2 :=
    match overlay refs with
    | Some o => add_click_listener o CloseDrawer st1
    | None => st1
    end in
  match closeBtn refs with
  | Some c => add_click_listener c CloseDrawer st2
  | None => st2
  end.

Definition run_click_listener (doc : element) (refs : drawer_refs)
    (l : click_listener) (st : header_page) : outcome header_page :=
  match l with
  | OpenDrawer => openDrawer doc refs st
  | CloseDrawer => closeDrawer doc refs st
  end.

(** A click on [target]: the listeners registered on it run in
    registration order; what a listener throws is reported as an uncaught
    error and the next listener still runs. *)
Definition click (doc : element) (refs : drawer_refs) (target : path)
    (st : header_page) : header_page * list error :=
  foldl (fun acc tl =>
           if decide (tl.1 = target) then
             match run_click_listener doc refs tl.2 acc.1 with
             | Ok st' => (st', acc.2)
             | Throw e st' => (st', acc.2 ++ [e])
             end
           else acc)
        (st, []) (click_listeners st).

(** A header with the overlay and the close button of the drawer but no
    drawer: the overlay is [[0; 0; 1]], the button [[0; 0; 2]]. *)
Definition no_drawer_doc : element :=
  html [Element "header" "" ["site-header"]
          [Element "button" "" ["header-toggle"] [];
           Element "div" "" ["mobile-drawer__overlay"] [];
           Element "button" "" ["mobile-drawer__close"] []]].

Definition empty_header_page : header_page := HeaderPage ∅ [].


From stdpp Require Import sorting.

(** ** The closures an initialization registers *)

(** One closure per visited container in which a selector is found, on that
    selector, in the order of the visit. *)
Definition registered (mk : path -> path -> listener) (doc : element)
    (l : list path) : list (path * listener) :=
  omap (fun d => (fun s => (s, mk d s))
                 <$> querySelector doc (Some d) sel_offer_type) l.

(** The container a closure captured. *)
Definition listener_inline (l : listener) : path :=
  match l with
  | ToggleOfferFields inline _ => inline
  | ToggleFields inline _ => inline
  end.

(** A form whose inputs sit in boxes marked with the field class, without
    form rows: the form is [[0; 0]], the box of hours [[0; 0; 1]]. *)
Definition boxed_form (prefix : string) : element :=
  Element "div" "" ["inline-related"]
    (Element "div" "" [] [offer_select prefix]
     :: map (field_box prefix) fields).
Definition boxed_doc : element := html [boxed_form "id_offers-0-"].

(** ** header.js, the submenu and the sports dropdown *)

(** [el.classList.toggle(c)] *)
Definition classList_toggle (doc : element) (p : path) (c : string)
    (st : header_page) : header_page :=
  if includes (classList doc st p) c then classList_remove doc p c st
  else classList_add doc p c st.

(** The other click listeners of header.js, each with the constants its
    arrow function captured (the guards make them non-null): the one of
    [subToggle], the one of [sportsLink], and the one of [document]. *)
Inductive nav_listener : Type :=
  | SubToggleClick (subToggle subList : path)
  | SportsLinkClick (dropdown : path)
  | OutsideClick (sportsNavItem dropdown : path).

(** The whole header: the classes and drawer listeners as before, the
    [aria-expanded] attribute (absent from the map when the element has
    none), the [hidden] property, and the other listeners, each on an
    element or, for [None], on [document]. *)
Record nav_page : Type := NavPage {
  drawer_page : header_page;
  aria_expanded : gmap path string;
  hidden : gmap path bool;
  nav_listeners : list (option path * nav_listener)
}.

Definition is_hidden (st : nav_page) (p : path) : bool :=
  default false (hidden st !! p).

Definition with_drawer_page (h : header_page) (st : nav_page) : nav_page :=
  NavPage h (aria_expanded st) (hidden st) (nav_listeners st).

(** Every registration passes a fresh arrow function. *)
Definition add_nav_listener (on : option path) (l : nav_listener)
    (st : nav_page) : nav_page :=
  NavPage (drawer_page st) (aria_expanded st) (hidden st)
          (nav_listeners st ++ [(on, l)]).

(** [const expanded = subToggle.getAttribute("aria-expanded") === "true";
     subToggle.setAttribute("aria-expanded", !expanded);
     subList.hidden = expanded;] *)
Definition subToggle_click (subToggle subList : path) (st : nav_page)
    : nav_page :=
  let expanded := bool_decide (aria_expanded st !! subToggle = Some "true") in
  NavPage (drawer_page st)
          (<[subToggle := if expanded then "false" else "true"]>
             (aria_expanded st))
          (<[subList := expanded]> (hidden st))
          (nav_listeners st).

(** [e.preventDefault(); dropdown.classList.toggle("is-open");] *)
Definition sportsLink_click (doc : element) (dropdown : path)
    (st : nav_page) : nav_page :=
  with_drawer_page (classList_toggle doc dropdown "is-open" (drawer_page st))
                   st.

(** [if (!sportsNavItem.contains(e.target))
       dropdown.classList.remove("is-open");] *)
Definition outside_click (doc : element) (sportsNavItem dropdown : path)
    (target : path) (st : nav_page) : nav_page :=
  if bool_decide (sportsNavItem `prefix_of` target) then st
  else with_drawer_page
         (classList_remove doc dropdown "is-open" (drawer_page st)) st.

Definition run_nav_listener (doc : element) (target : path)
    (l : nav_listener) (st : nav_page) : nav_page :=
  match l with
  | SubToggleClick t sl => subToggle_click t sl st
  | SportsLinkClick dd => sportsLink_click doc dd st
  | OutsideClick n dd => outside_click doc n dd target st
  end.

(** The constants of the second half of the DOMContentLoaded closure. *)
Record nav_refs : Type := NavRefs {
  subToggle : option path;
  subList : option path;
  sportsNavItem : option path;
  sportsLink : option path;
  dropdown : option path
}.

Definition header_nav_refs (doc : element) : nav_refs :=
  let item :=
    querySelector doc None
      (sel_and (has_class "nav-item") (has_class "nav-dropdown")) in
  NavRefs (querySelector doc None (has_class "sub-toggle"))
          (querySelector doc None (has_class "sub-list"))
          item
          (item ≫= fun n => querySelector doc (Some n) (has_class "nav-link"))
          (item ≫= fun n => querySelector doc (Some n) (has_class "dropdown")).

(** The whole DOMContentLoaded handler of header.js: the drawer part, then
    the submenu listener when toggle and list exist, then the two dropdown
    listeners when item, link and dropdown exist. *)
Definition nav_onDOMContentLoaded (doc : element) (st : nav_page) : nav_page :=
  let refs := header_nav_refs doc in
  let st1 :=
    with_drawer_page (header_onDOMContentLoaded doc (drawer_page st)) st in
  let st2 :=
    match subToggle refs, subList refs with
    | Some t, Some sl => add_nav_listener (Some t) (SubToggleClick t sl) st1
    | _, _ => st1
    end in
  match sportsNavItem refs, sportsLink refs, dropdown refs with
  | Some n, Some k, Some dd =>
      add_nav_listener None (OutsideClick n dd)
        (add_nav_listener (Some k) (SportsLinkClick dd) st2)
  | _, _, _ => st2
  end.

(** The element clicked, then its ancestors up to the root element. *)
Definition ancestors_or_self (t : path) : list path :=
  (fun n => take n t) <$> reverse (seq 0 (S (length t))).

(** The listeners of one stop of the event ([Some a] an element, [None] the
    document) run in registration order: the drawer listeners, which were
    registered first, then the others. *)
Definition nav_click_on (doc : element) (target : path) (on : option path)
    (acc : nav_page * list error) : nav_page * list error :=
  let after_drawer :=
    match on with
    | Some a =>
        let r := click doc (header_refs doc) a (drawer_page acc.1) in
        (with_drawer_page r.1 acc.1, acc.2 ++ r.2)
    | None => acc
    end in
  (foldl (fun st ol =>
            if decide (ol.1 = on) then run_nav_listener doc target ol.2 st
            else st)
         after_drawer.1 (nav_listeners after_drawer.1),
   after_drawer.2).

(** A click on [target]: the event visits the element, bubbles through its
    ancestors and ends at the document. *)
Definition nav_click (doc : element) (target : path) (st : nav_page)
    : nav_page * list error :=
  foldl (fun acc on => nav_click_on doc target on acc) (st, [])
        ((Some <$> ancestors_or_self target) ++ [None]).

(** A header with a toggle button [[0; 0; 0]], a drawer [[0; 0; 1]], a
    submenu toggle [[0; 0; 2]] and its list [[0; 0; 3]], and the sports item
    [[0; 0; 4]] holding its link [[0; 0; 4; 0]] and its dropdown
    [[0; 0; 4; 1]]. *)
Definition full_header_doc : element :=
  html [Element "header" "" ["site-header"]
          [Element "button" "" ["header-toggle"] [];
           Element "div" "" ["mobile-drawer"] [];
           Element "button" "" ["sub-toggle"] [];
           Element "ul" "" ["sub-list"] [];
           Element "li" "" ["nav-item"; "nav-dropdown"]
             [Element "a" "" ["nav-link"] [];
              Element "div" "" ["dropdown"] []]]].

Definition empty_nav_page : nav_page := NavPage empty_header_page ∅ ∅ [].
(** * Properties *)

(** Closed decidable statements are settled by evaluation. *)
Ltac by_eval := apply (bool_decide_unpack _); vm_compute; exact I.

(** ** Pages *)

Lemma page_eq (s t : page) :
  style_display s = style_display t ->
  select_value s = select_value t ->
  change_listeners s = change_listeners t ->
  s = t.
Proof. destruct s, t; simpl; intros; subst; reflexivity. Qed.

Lemma display_lookup (s t : page) (q : path) :
  style_display s !! q = style_display t !! q -> display s q = display t q.
Proof. unfold display. intros ->. reflexivity. Qed.

Lemma display_Some (st : page) (q : path) (v : string) :
  style_display st !! q = Some v -> display st q = v.
Proof. unfold display. intros ->. reflexivity. Qed.

(** ** A sequence of writes *)

Section FieldWrites.
Variable row : string -> option path.
Variable disp : string -> string.

Local Abbreviation run := (foldl (write_field row disp)).

Lemma write_fields_lookup (fs : list string) (st : page) (q : path) :
  style_display (run st fs) !! q
  = foldl (last_write row disp q) (style_display st !! q) fs.
Proof.
  revert st. induction fs as [|f fs IH]; intros st; simpl; [reflexivity|].
  rewrite IH. f_equal. unfold write_field, last_write.
  destruct (row f) as [r|] eqn:Hr.
  - simpl. destruct (decide (Some r = Some q)) as [[= ->]|Hne].
    + apply lookup_insert_eq.
    + apply lookup_insert_ne. congruence.
  - destruct (decide (None = Some q)); [discriminate | reflexivity].
Qed.

Lemma write_fields_value (fs : list string) (st : page) :
  select_value (run st fs) = select_value st.
Proof.
  revert st. induction fs as [|f fs IH]; intros st; simpl; [reflexivity|].
  rewrite IH. unfold write_field. destruct (row f); reflexivity.
Qed.

Lemma write_fields_listeners (fs : list string) (st : page) :
  change_listeners (run st fs) = change_listeners st.
Proof.
  revert st. induction fs as [|f fs IH]; intros st; simpl; [reflexivity|].
  rewrite IH. unfold write_field. destruct (row f); reflexivity.
Qed.

(** On one element a sequence of visits either changes nothing or leaves
    one value, whatever was there before. *)
Lemma last_write_id_or_const (fs : list string) (q : path) :
  (forall a, foldl (last_write row disp q) a fs = a) \/
  (exists v, forall a, foldl (last_write row disp q) a fs = Some v).
Proof.
  induction fs as [|f fs IH]; simpl; [left; reflexivity|].
  destruct IH as [Hid | [v Hv]].
  - unfold last_write at 2 4. destruct (decide (row f = Some q)).
    + right. exists (disp f). intros a. apply Hid.
    + left. intros a. apply Hid.
  - right. exists v. intros a. apply Hv.
Qed.

Lemma write_fields_idem (fs : list string) (st : page) :
  run (run st fs) fs = run st fs.
Proof.
  apply page_eq.
  - apply map_eq. intros q. rewrite (write_fields_lookup fs (run st fs)).
    rewrite (write_fields_lookup fs st).
    destruct (last_write_id_or_const fs q) as [Hid | [v Hv]].
    + rewrite !Hid. reflexivity.
    + rewrite !Hv. reflexivity.
  - rewrite !write_fields_value. reflexivity.
  - rewrite !write_fields_listeners. reflexivity.
Qed.

(** An element that is no visited field's row keeps its display. *)
Lemma write_fields_untouched (fs : list string) (st : page) (q : path) :
  (forall f, f ∈ fs -> row f <> Some q) ->
  style_display (run st fs) !! q = style_display st !! q.
Proof.
  intros H. rewrite write_fields_lookup.
  generalize (style_display st !! q). induction fs as [|f fs IH]; intros a.
  - reflexivity.
  - simpl. unfold last_write at 2.
    destruct (decide (row f = Some q)) as [E|_].
    + exfalso. apply (H f); [left | exact E].
    + apply IH. intros g Hg. apply H. right. exact Hg.
Qed.

(** The last visit that finds [r] decides its display. *)
Lemma write_fields_last (fs1 fs2 : list string) (f : string) (st : page)
    (r : path) :
  row f = Some r ->
  (forall g, g ∈ fs2 -> row g <> Some r) ->
  style_display (run st (fs1 ++ f :: fs2)) !! r = Some (disp f).
Proof.
  intros Hf Hrest. rewrite foldl_app. simpl.
  rewrite write_fields_untouched by exact Hrest.
  unfold write_field. rewrite Hf. simpl. apply lookup_insert_eq.
Qed.

(** When every visit that finds [r] assigns [v], and one does, [r] ends
    with [v]. *)
Lemma write_fields_uniform (fs : list string) (st : page) (r : path)
    (v : string) :
  (forall g, g ∈ fs -> row g = Some r -> disp g = v) ->
  (exists f, f ∈ fs /\ row f = Some r) ->
  style_display (run st fs) !! r = Some v.
Proof.
  intros Hall Hex. rewrite write_fields_lookup.
  assert (Hgen : forall a,
    a = Some v \/ (exists f, f ∈ fs /\ row f = Some r) ->
    foldl (last_write row disp r) a fs = Some v).
  { clear Hex st. induction fs as [|g fs IH]; intros a Ha; simpl.
    - destruct Ha as [Ha | [f [Hin _]]]; [exact Ha | inversion Hin].
    - apply IH.
      + intros h Hh. apply Hall. right. exact Hh.
      + unfold last_write. destruct (decide (row g = Some r)) as [Hg|Hg].
        * left. f_equal. apply Hall; [left | exact Hg].
        * destruct Ha as [Ha | [f [Hin Hf]]]; [left; exact Ha|].
          apply elem_of_cons in Hin as [->|Hin]; [contradiction|].
          right. exists f. split; assumption. }
  apply Hgen. right. exact Hex.
Qed.
End FieldWrites.

Section FieldWritesDistinct.
Variable row : string -> option path.
Variable disp : string -> string.

(** When the rows found are pairwise distinct elements, each keeps what
    its own field assigned. *)
Lemma write_fields_distinct (fs : list string) (f : string) (st : page)
    (r : path) :
  NoDup (omap row fs) -> f ∈ fs -> row f = Some r ->
  style_display (foldl (write_field row disp) st fs) !! r = Some (disp f).
Proof.
  intros Hnd Hin Hf.
  apply list_elem_of_split in Hin as (fs1 & fs2 & ->).
  apply write_fields_last; [exact Hf|].
  intros g Hg Hgr.
  rewrite omap_app in Hnd. simpl in Hnd. rewrite Hf in Hnd.
  apply NoDup_app in Hnd as (_ & _ & Hnd).
  apply NoDup_cons in Hnd as [Hnotin _].
  apply Hnotin. apply list_elem_of_omap. exists g. split; assumption.
Qed.

(** With pairwise distinct rows the order of the visits does not matter. *)
Lemma write_fields_perm (fs fs' : list string) (st : page) :
  NoDup (omap row fs) -> fs ≡ₚ fs' ->
  foldl (write_field row disp) st fs = foldl (write_field row disp) st fs'.
Proof.
  intros Hnd Hperm. apply page_eq.
  - apply map_eq. intros q.
    destruct (decide (Exists (fun f => row f = Some q) fs)) as [Hex|Hno].
    + apply Exists_exists in Hex as [f [Hf Hq]].
      rewrite (write_fields_distinct fs f st q Hnd Hf Hq).
      rewrite (write_fields_distinct fs' f st q); [reflexivity | | | exact Hq].
      * rewrite <- Hperm. exact Hnd.
      * rewrite <- Hperm. exact Hf.
    + rewrite !write_fields_untouched; [reflexivity | |].
      * intros f Hf Hq. apply Hno. apply Exists_exists. exists f.
        split; [rewrite Hperm; exact Hf | exact Hq].
      * intros f Hf Hq. apply Hno. apply Exists_exists. exists f.
        split; assumption.
  - rewrite !write_fields_value. reflexivity.
  - rewrite !write_fields_listeners. reflexivity.
Qed.

(** A field without a row can be dropped from the array. *)
Lemma write_fields_drop (fs : list string) (f : string) (st : page) :
  row f = None ->
  foldl (write_field row disp) st (filter (fun g => g <> f) fs)
  = foldl (write_field row disp) st fs.
Proof.
  intros Hf. revert st. induction fs as [|g fs IH]; intros st.
  - reflexivity.
  - rewrite filter_cons. destruct (decide (g <> f)) as [Hne|Heq].
    + simpl. apply IH.
    + apply dec_stable in Heq. subst g. simpl.
      replace (write_field row disp st f) with st
        by (unfold write_field; rewrite Hf; reflexivity).
      apply IH.
Qed.
End FieldWritesDistinct.

(** ** The two closures as sequences of writes *)

Lemma toggleOfferFields_over_writes (fs : list string) (doc : element)
    (inline select : path) (st : page) :
  toggleOfferFields_over fs doc inline select st
  = foldl (write_field (offer_field_row doc inline)
             (offer_display (toLowerCase (value st select)))) st fs.
Proof. reflexivity. Qed.

Lemma toggleFields_over_writes (fs : list string) (doc : element)
    (inline select : path) (st : page) :
  toggleFields_over fs doc inline select st
  = foldl (write_field (toggle_field_row doc inline)
             (toggle_display (value st select))) st fs.
Proof. reflexivity. Qed.

Lemma toggleOfferFields_over_value fs doc inline select st p :
  value (toggleOfferFields_over fs doc inline select st) p = value st p.
Proof.
  rewrite toggleOfferFields_over_writes. unfold value.
  rewrite write_fields_value. reflexivity.
Qed.

Lemma toggleFields_over_value fs doc inline select st p :
  value (toggleFields_over fs doc inline select st) p = value st p.
Proof.
  rewrite toggleFields_over_writes. unfold value.
  rewrite write_fields_value. reflexivity.
Qed.

(** ** Lower case *)

Lemma lower_ascii_idem (c : ascii) : lower_ascii (lower_ascii c) = lower_ascii c.
Proof. destruct c as [[] [] [] [] [] [] [] []]; reflexivity. Qed.

Lemma toLowerCase_idem (s : string) : toLowerCase (toLowerCase s) = toLowerCase s.
Proof.
  induction s as [|c s IH]; simpl; [reflexivity|].
  rewrite lower_ascii_idem, IH. reflexivity.
Qed.

(** ** The switch and the rule table *)

Lemma elem_of_modes (m : string) :
  m ∈ modes -> m = "lesson" \/ m = "course" \/ m = "experience" \/ m = "rental".
Proof.
  unfold modes. rewrite !elem_of_cons, elem_of_nil. tauto.
Qed.

Lemma offer_display_table (mode f : string) :
  mode ∈ modes -> offer_display (toLowerCase mode) f = table_display mode f.
Proof.
  intros H. apply elem_of_modes in H as [-> | [-> | [-> | ->]]]; reflexivity.
Qed.

Lemma toggle_display_table (mode f : string) :
  mode ∈ modes -> toggle_display mode f = table_display mode f.
Proof.
  intros H. apply elem_of_modes in H as [-> | [-> | [-> | ->]]]; reflexivity.
Qed.

Lemma not_elem_of_modes (m : string) :
  m ∉ modes ->
  String.eqb m "lesson" = false /\ String.eqb m "course" = false /\
  String.eqb m "experience" = false /\ String.eqb m "rental" = false.
Proof.
  unfold modes. rewrite !not_elem_of_cons. intros (H1 & H2 & H3 & H4 & _).
  rewrite !String.eqb_neq. auto.
Qed.

Lemma offer_display_default (val f : string) :
  val ∉ modes -> offer_display val f = "".
Proof.
  intros H. apply not_elem_of_modes in H as (H1 & H2 & H3 & H4).
  unfold offer_display. rewrite H1, H2, H3, H4. reflexivity.
Qed.

Lemma toggle_display_else (val f : string) :
  val <> "lesson" -> val <> "course" -> val <> "experience" ->
  toggle_display val f = "none".
Proof.
  intros H1 H2 H3. apply String.eqb_neq in H1, H2, H3.
  unfold toggle_display. rewrite H1, H2, H3. reflexivity.
Qed.

(** * The element tree and the queries *)

Lemma subtree_forest (e : element) :
  subtree e = ([], e) :: forest 0 (children e).
Proof.
  destruct e as [t i c cs]. reflexivity.
Qed.

Lemma forest_nonempty (i : nat) (l : list element) (pe : path * element) :
  pe ∈ forest i l -> pe.1 <> [].
Proof.
  revert i. induction l as [|c l IH]; intros i; simpl.
  - intros H. inversion H.
  - rewrite elem_of_app, list_elem_of_fmap. intros [[x [-> _]]|H].
    + simpl. discriminate.
    + apply (IH _ H).
Qed.

Lemma descendants_nonempty (e : element) (pe : path * element) :
  pe ∈ descendants e -> pe.1 <> [].
Proof.
  unfold descendants. rewrite subtree_forest. simpl. apply forest_nonempty.
Qed.

(** A query on an element answers with proper descendants of it. *)
Lemma querySelectorAll_below (doc : element) (p x : path) (sel : selector) :
  x ∈ querySelectorAll doc (Some p) sel ->
  exists q, q <> [] /\ x = p ++ q.
Proof.
  unfold querySelectorAll. destruct (lookup_element doc p) as [e|].
  - rewrite list_elem_of_fmap. intros [q [-> Hq]]. exists q. split; [|reflexivity].
    unfold matching in Hq. apply list_elem_of_fmap in Hq as [pe [-> Hpe]].
    apply list_elem_of_filter in Hpe as [_ Hpe].
    apply (descendants_nonempty _ _ Hpe).
  - intros H. inversion H.
Qed.

Lemma querySelector_below (doc : element) (p x : path) (sel : selector) :
  querySelector doc (Some p) sel = Some x ->
  exists q, q <> [] /\ x = p ++ q.
Proof.
  unfold querySelector. intros H. apply (querySelectorAll_below doc p x sel).
  apply head_Some_elem_of. exact H.
Qed.

(** The element a query is run on is never among the answers. *)
Lemma querySelectorAll_excludes_scope (doc : element) (p : path)
    (sel : selector) :
  p ∉ querySelectorAll doc (Some p) sel.
Proof.
  intros H. apply querySelectorAll_below in H as [q [Hq Hp]].
  apply Hq. apply (app_inv_head p). rewrite app_nil_r. symmetry. exact Hp.
Qed.

Lemma closest_from_prefix (doc : element) (sel : selector) (p r : path)
    (n : nat) :
  closest_from doc sel p n = Some r -> r `prefix_of` p.
Proof.
  induction n as [|n IH]; simpl; destruct (matches doc sel (take _ p)).
  - intros [= <-]. apply prefix_take.
  - discriminate.
  - intros [= <-]. apply prefix_take.
  - exact IH.
Qed.

Lemma closest_prefix (doc : element) (sel : selector) (p r : path) :
  closest doc sel p = Some r -> r `prefix_of` p.
Proof. apply closest_from_prefix. Qed.

Lemma offer_field_row_reached (doc : element) (inline r : path) (f : string) :
  offer_field_row doc inline f = Some r -> reached_from inline r.
Proof.
  unfold offer_field_row.
  destruct (querySelector doc (Some inline) (id_ends_with f)) as [x|] eqn:Hx;
    simpl.
  - destruct (closest doc (sel_form_row_or_field f) x) as [r'|] eqn:Hr.
    + intros [= <-]. exists x. split.
      * apply querySelector_below in Hx as [q [_ ->]]. apply prefix_app_r.
        reflexivity.
      * apply (closest_prefix _ _ _ _ Hr).
    + intros H. apply querySelector_below in H as [q [_ ->]].
      exists (inline ++ q). split; [apply prefix_app_r|]; reflexivity.
  - intros H. apply querySelector_below in H as [q [_ ->]].
    exists (inline ++ q). split; [apply prefix_app_r|]; reflexivity.
Qed.

Lemma toggle_field_row_reached (doc : element) (inline r : path) (f : string) :
  toggle_field_row doc inline f = Some r -> reached_from inline r.
Proof.
  unfold toggle_field_row.
  destruct (querySelector doc (Some inline) (id_ends_with f)) as [x|] eqn:Hx;
    simpl; [|discriminate].
  intros Hr. exists x. split.
  - apply querySelector_below in Hx as [q [_ ->]]. apply prefix_app_r.
    reflexivity.
  - apply (closest_prefix _ _ _ _ Hr).
Qed.

(** Two elements neither of which is inside the other: nothing inside the
    one is reached from the other. *)
Lemma not_reached_apart (a b q : path) :
  ~ a `prefix_of` b -> ~ b `prefix_of` a -> b `prefix_of` q ->
  ~ reached_from a q.
Proof.
  intros Hab Hba Hbq [x [Hax Hqx]].
  destruct (prefix_weak_total a b x Hax) as [H|H].
  - transitivity q; assumption.
  - exact (Hab H).
  - exact (Hba H).
Qed.


(** ** The subtree of an element lists the elements below it *)

Lemma elem_of_forest (i : nat) (l : list element) (q : path) (e' : element) :
  (q, e') ∈ forest i l <->
  exists j c q', q = (i + j)%nat :: q' /\ l !! j = Some c /\
                 (q', e') ∈ subtree c.
Proof.
  revert i. induction l as [|c l IH]; intros i; simpl.
  - split; [intros H; inversion H | intros (j & c & q' & _ & H & _)].
    discriminate H.
  - rewrite elem_of_app, list_elem_of_fmap, IH. split.
    + intros [[[q' x] [[= -> ->] Hin]] | (j & d & q' & -> & Hj & Hin)].
      * exists 0, c, q'. rewrite Nat.add_0_r. auto.
      * exists (S j), d, q'. rewrite Nat.add_succ_r. auto.
    + intros (j & d & q' & -> & Hj & Hin). destruct j as [|j]; simpl in Hj.
      * injection Hj as ->. left. exists (q', e'). rewrite Nat.add_0_r. auto.
      * right. exists j, d, q'. rewrite Nat.add_succ_r. auto.
Qed.

Lemma elem_of_subtree (e : element) (q : path) (e' : element) :
  (q, e') ∈ subtree e <-> lookup_element e q = Some e'.
Proof.
  revert e. induction q as [|i q IH]; intros e; rewrite subtree_forest;
    rewrite elem_of_cons, elem_of_forest; simpl.
  - split.
    + intros [[= ->] | (j & c & q' & Hq & _)]; [reflexivity | discriminate Hq].
    + intros [= ->]. left. reflexivity.
  - split.
    + intros [Hq | (j & c & q' & [= -> ->] & Hj & Hin)]; [discriminate Hq|].
      rewrite Hj. apply IH. exact Hin.
    + destruct (children e !! i) as [c|] eqn:Hc; [|discriminate].
      intros H. right. exists i, c, q. split; [reflexivity|].
      split; [exact Hc | apply IH; exact H].
Qed.

Lemma lookup_element_app (e : element) (p q : path) :
  lookup_element e (p ++ q) = lookup_element e p ≫= fun x => lookup_element x q.
Proof.
  revert e. induction p as [|i p IH]; intros e; simpl; [reflexivity|].
  destruct (children e !! i); [apply IH | reflexivity].
Qed.

(** The answers of a query on the element [p]: the elements properly below
    [p] that the selector accepts. *)
Lemma elem_of_querySelectorAll (doc : element) (p x : path) (sel : selector) :
  x ∈ querySelectorAll doc (Some p) sel <->
  exists q, q <> [] /\ x = p ++ q /\ matches doc sel x = true.
Proof.
  unfold querySelectorAll, matches. split.
  - destruct (lookup_element doc p) as [e|] eqn:He; [|intros H; inversion H].
    rewrite list_elem_of_fmap. intros [q [-> Hq]].
    unfold matching in Hq. apply list_elem_of_fmap in Hq as [[q' e'] [-> Hpe]].
    apply list_elem_of_filter in Hpe as [Hsel Hpe]. simpl in *.
    exists q'. split; [apply (descendants_nonempty _ _ Hpe)|].
    split; [reflexivity|].
    assert (Hsub : (q', e') ∈ subtree e).
    { unfold descendants in Hpe. rewrite subtree_forest in *. simpl in Hpe.
      right. exact Hpe. }
    apply elem_of_subtree in Hsub. rename Hsub into Hpe'.
    rewrite lookup_element_app, He. simpl. rewrite Hpe'. exact Hsel.
  - intros (q & Hq & -> & Hm). rewrite lookup_element_app in Hm.
    destruct (lookup_element doc p) as [e|]; simpl in Hm; [|discriminate].
    destruct (lookup_element e q) as [e'|] eqn:He'; [|discriminate].
    apply list_elem_of_fmap. exists q. split; [reflexivity|].
    unfold matching. apply list_elem_of_fmap. exists (q, e').
    split; [reflexivity|]. apply list_elem_of_filter. split; [exact Hm|].
    apply elem_of_subtree in He'. unfold descendants.
    rewrite subtree_forest in *. simpl.
    apply elem_of_cons in He' as [[= -> _] | H]; [contradiction | exact H].
Qed.

(** What is not found in an element is not found in an element inside it. *)
Lemma querySelector_inside (doc : element) (c d : path) (sel : selector) :
  c `prefix_of` d ->
  querySelector doc (Some c) sel = None ->
  querySelector doc (Some d) sel = None.
Proof.
  intros [k ->] Hc. unfold querySelector in *.
  destruct (querySelectorAll doc (Some (c ++ k)) sel) as [|x l] eqn:Hl;
    [reflexivity|].
  exfalso. assert (Hx : x ∈ querySelectorAll doc (Some (c ++ k)) sel)
    by (rewrite Hl; left).
  apply elem_of_querySelectorAll in Hx as (q & Hq & -> & Hm).
  assert (Hin : (c ++ k) ++ q ∈ querySelectorAll doc (Some c) sel).
  { apply elem_of_querySelectorAll. exists (k ++ q). split.
    - intros H. apply app_eq_nil in H as [_ H]. exact (Hq H).
    - split; [apply eq_sym, app_assoc | exact Hm]. }
  destruct (querySelectorAll doc (Some c) sel); [inversion Hin | discriminate Hc].
Qed.

(** ** A visit of the matched containers *)

Lemma initOfferTypeFields_inline_visit (doc : element) (st : page)
    (inline : path) :
  initOfferTypeFields_inline doc st inline
  = visit_inline (offer_field_row doc) offer_display toLowerCase
      ToggleOfferFields doc st inline.
Proof. reflexivity. Qed.

Lemma initOfferTypeToggles_inline_visit (doc : element) (st : page)
    (inline : path) :
  initOfferTypeToggles_inline doc st inline
  = visit_inline (toggle_field_row doc) toggle_display (fun v => v)
      ToggleFields doc st inline.
Proof. reflexivity. Qed.

Section Visits.
Variable row : path -> string -> option path.
Variable disp : string -> string -> string.
Variable norm : string -> string.
Variable mk : path -> path -> listener.
Variable doc : element.

Local Abbreviation visit := (visit_inline row disp norm mk doc).

Lemma visit_no_select (st : page) (inline : path) :
  querySelector doc (Some inline) sel_offer_type = None ->
  visit st inline = st.
Proof. unfold visit_inline. intros ->. reflexivity. Qed.

Lemma visit_value (st : page) (inline : path) :
  select_value (visit st inline) = select_value st.
Proof.
  unfold visit_inline.
  destruct (querySelector doc (Some inline) sel_offer_type); [|reflexivity].
  rewrite write_fields_value. reflexivity.
Qed.

Lemma visits_value (l : list path) (st : page) :
  select_value (foldl visit st l) = select_value st.
Proof.
  revert st. induction l as [|d l IH]; intros st; simpl; [reflexivity|].
  rewrite IH. apply visit_value.
Qed.

(** A visit writes the rows its container's lookups find, nothing else. *)
Lemma visit_untouched (st : page) (inline q : path) :
  querySelector doc (Some inline) sel_offer_type = None \/
  (forall g, g ∈ fields -> row inline g <> Some q) ->
  style_display (visit st inline) !! q = style_display st !! q.
Proof.
  intros [Hsel|Hq]; [rewrite visit_no_select by exact Hsel; reflexivity|].
  unfold visit_inline.
  destruct (querySelector doc (Some inline) sel_offer_type); [|reflexivity].
  rewrite write_fields_untouched by exact Hq. reflexivity.
Qed.

Lemma visits_untouched (l : list path) (st : page) (q : path) :
  (forall d, d ∈ l ->
     querySelector doc (Some d) sel_offer_type = None \/
     (forall g, g ∈ fields -> row d g <> Some q)) ->
  style_display (foldl visit st l) !! q = style_display st !! q.
Proof.
  revert st. induction l as [|d l IH]; intros st H; simpl; [reflexivity|].
  rewrite IH by (intros d' Hd'; apply H; right; exact Hd').
  apply visit_untouched. apply H. left.
Qed.

(** A visit that finds a selector evaluates the container by it. *)
Lemma visit_distinct (st : page) (inline select r : path) (f : string) :
  querySelector doc (Some inline) sel_offer_type = Some select ->
  NoDup (omap (row inline) fields) ->
  f ∈ fields ->
  row inline f = Some r ->
  style_display (visit st inline) !! r
  = Some (disp (norm (value st select)) f).
Proof.
  intros Hsel Hnd Hf Hr. unfold visit_inline. rewrite Hsel.
  apply write_fields_distinct; assumption.
Qed.

Lemma visit_listeners (st : page) (inline : path) :
  change_listeners (visit st inline)
  = change_listeners st
    ++ match querySelector doc (Some inline) sel_offer_type with
       | Some select => [(select, mk inline select)]
       | None => []
       end.
Proof.
  unfold visit_inline.
  destruct (querySelector doc (Some inline) sel_offer_type).
  - rewrite write_fields_listeners. reflexivity.
  - rewrite app_nil_r. reflexivity.
Qed.

Lemma visits_listeners_grow (l : list path) (st : page)
    (x : path * listener) :
  x ∈ change_listeners st -> x ∈ change_listeners (foldl visit st l).
Proof.
  revert st. induction l as [|d l IH]; intros st H; simpl; [exact H|].
  apply IH. rewrite visit_listeners. apply elem_of_app. left. exact H.
Qed.

(** The closures registered by a visit of a list of containers capture
    containers of that list. *)
Lemma visits_listeners_from (l : list path) (st : page)
    (x : path * listener) :
  x ∈ change_listeners (foldl visit st l) ->
  x ∈ change_listeners st \/
  exists d select, d ∈ l /\ x = (select, mk d select).
Proof.
  revert st. induction l as [|d l IH]; intros st; simpl; [auto|].
  intros H. apply IH in H as [H | (d' & s & Hd' & ->)].
  - rewrite visit_listeners in H. apply elem_of_app in H as [H|H]; [auto|].
    right. destruct (querySelector doc (Some d) sel_offer_type) as [s|].
    + apply list_elem_of_singleton in H as ->. exists d, s. split; [left|].
      reflexivity.
    + inversion H.
  - right. exists d', s. split; [right; exact Hd' | reflexivity].
Qed.

(** After the visit of a list of containers, a container of the list in
    which a selector is found has its closure registered on that selector,
    and each of its rows that no later container of the list writes shows
    what the closure assigns for the selector's value. *)
Lemma visits_discovered (l1 l2 : list path) (inline select r : path)
    (f : string) (st : page) :
  querySelector doc (Some inline) sel_offer_type = Some select ->
  NoDup (omap (row inline) fields) ->
  f ∈ fields ->
  row inline f = Some r ->
  (forall d, d ∈ l2 ->
     querySelector doc (Some d) sel_offer_type = None \/
     (forall g, g ∈ fields -> row d g <> Some r)) ->
  let st' := foldl visit st (l1 ++ inline :: l2) in
  (select, mk inline select) ∈ change_listeners st' /\
  display st' r = disp (norm (value st select)) f.
Proof.
  intros Hsel Hnd Hf Hr Hl2 st'. subst st'. rewrite foldl_app. simpl. split.
  - apply visits_listeners_grow. rewrite visit_listeners, Hsel.
    apply elem_of_app. right. left.
  - apply display_Some. rewrite visits_untouched by exact Hl2.
    rewrite (visit_distinct _ inline select r f Hsel Hnd Hf Hr).
    unfold value. rewrite visits_value. reflexivity.
Qed.
End Visits.
(** * The visibility rules *)

(** C1 (as amended). For each of the four modes held by the selector, and
    whatever the order in which the five field names are visited, the
    evaluation leaves the same page, on which the row of every field that
    has one is shown exactly when the rule table lists the field for that
    mode and hidden otherwise, provided the rows found for the five fields
    are pairwise distinct elements.  Both closures. *)
Theorem rule_table_on_distinct_rows (doc : element) (inline select : path)
    (st : page) (mode : string) (fs : list string) :
  mode ∈ modes ->
  value st select = mode ->
  fs ≡ₚ fields ->
  (NoDup (omap (offer_field_row doc inline) fields) ->
   toggleOfferFields_over fs doc inline select st
   = toggleOfferFields doc inline select st /\
   forall f r, f ∈ fields -> offer_field_row doc inline f = Some r ->
     display (toggleOfferFields_over fs doc inline select st) r
     = table_display mode f) /\
  (NoDup (omap (toggle_field_row doc inline) fields) ->
   toggleFields_over fs doc inline select st
   = toggleFields doc inline select st /\
   forall f r, f ∈ fields -> toggle_field_row doc inline f = Some r ->
     display (toggleFields_over fs doc inline select st) r
     = table_display mode f).
Proof.
  intros Hmode Hval Hperm. split; intros Hnd; split.
  - unfold toggleOfferFields. rewrite !toggleOfferFields_over_writes.
    apply write_fields_perm; [rewrite Hperm; exact Hnd | exact Hperm].
  - intros f r Hf Hrow.
    apply display_Some. rewrite toggleOfferFields_over_writes, Hval.
    rewrite <- offer_display_table by exact Hmode.
    apply write_fields_distinct; [|rewrite Hperm; exact Hf|exact Hrow].
    rewrite Hperm. exact Hnd.
  - unfold toggleFields. rewrite !toggleFields_over_writes.
    apply write_fields_perm; [rewrite Hperm; exact Hnd | exact Hperm].
  - intros f r Hf Hrow.
    apply display_Some. rewrite toggleFields_over_writes, Hval.
    rewrite <- toggle_display_table by exact Hmode.
    apply write_fields_distinct; [|rewrite Hperm; exact Hf|exact Hrow].
    rewrite Hperm. exact Hnd.
Qed.

Lemma rule_table_on_distinct_rows_witness :
  display (toggleOfferFields_over (reverse fields) one_form_doc
             [0; 0] [0; 0; 0; 0] (selected "lesson")) [0; 0; 1] = ""
  /\ display (toggleFields_over (reverse fields) one_form_doc
             [0; 0] [0; 0; 0; 0] (selected "lesson")) [0; 0; 2]
     = "none".
Proof.
  assert (Hm : "lesson" ∈ modes) by by_eval.
  assert (Hp : reverse fields ≡ₚ fields) by by_eval.
  destruct (rule_table_on_distinct_rows one_form_doc [0; 0]
              [0; 0; 0; 0] (selected "lesson") "lesson" (reverse fields)
              Hm eq_refl Hp) as [H1 H2].
  split.
  - apply (proj2 (H1 ltac:(by_eval)) "hours" [0; 0; 1] ltac:(by_eval)
             eq_refl).
  - apply (proj2 (H2 ltac:(by_eval)) "classes" [0; 0; 2] ltac:(by_eval)
             eq_refl).
Defined.

(** C1 as stated fails where two fields share a row.  With hours and
    classes on one line and the selector on lesson, [toggleFields] shows the
    row for hours, then hides it for classes: hours ends hidden.
    [toggleOfferFields] does the same when the two inputs have no box of
    their own. *)
Lemma shared_row_breaks_rule_table :
  ~ (forall (doc : element) (inline select : path) (st : page)
            (mode f : string) (r : path),
       mode ∈ modes -> value st select = mode -> f ∈ fields ->
       toggle_field_row doc inline f = Some r ->
       display (toggleFields doc inline select st) r = table_display mode f)
  /\
  ~ (forall (doc : element) (inline select : path) (st : page)
            (mode f : string) (r : path),
       mode ∈ modes -> value st select = mode -> f ∈ fields ->
       offer_field_row doc inline f = Some r ->
       display (toggleOfferFields doc inline select st) r
       = table_display mode f).
Proof.
  split; intros H.
  - specialize (H shared_line_doc [0; 0] [0; 0; 0; 0] (selected "lesson")
                  "lesson" "hours" [0; 0; 1]
                  ltac:(by_eval) eq_refl ltac:(by_eval) eq_refl).
    vm_compute in H. discriminate H.
  - specialize (H plain_line_doc [0; 0] [0; 0; 0; 0] (selected "lesson")
                  "lesson" "hours" [0; 0; 1]
                  ltac:(by_eval) eq_refl ltac:(by_eval) eq_refl).
    vm_compute in H. discriminate H.
Qed.

(** C2 (as amended). In [toggleOfferFields] a selector value whose lower
    case is none of the four modes shows the row of every field that has
    one; in [toggleFields] a value that is none of the four modes hides the
    row of every field that has one. *)
Theorem fallback_of_each_closure (doc : element) (inline select : path)
    (st : page) :
  (toLowerCase (value st select) ∉ modes ->
   forall f r, f ∈ fields -> offer_field_row doc inline f = Some r ->
     display (toggleOfferFields doc inline select st) r = "") /\
  (value st select ∉ modes ->
   forall f r, f ∈ fields -> toggle_field_row doc inline f = Some r ->
     display (toggleFields doc inline select st) r = "none").
Proof.
  split; intros Hval f r Hf Hrow; apply display_Some.
  - unfold toggleOfferFields. rewrite toggleOfferFields_over_writes.
    apply write_fields_uniform.
    + intros g _ _. apply offer_display_default. exact Hval.
    + exists f. split; assumption.
  - unfold toggleFields. rewrite toggleFields_over_writes.
    apply write_fields_uniform.
    + intros g _ _. unfold modes in Hval.
      rewrite !not_elem_of_cons in Hval.
      destruct Hval as (H1 & H2 & H3 & _).
      apply toggle_display_else; assumption.
    + exists f. split; assumption.
Qed.

Lemma fallback_of_each_closure_witness :
  display (toggleOfferFields one_form_doc [0; 0] [0; 0; 0; 0]
             (selected "")) [0; 0; 5] = ""
  /\ display (toggleFields one_form_doc [0; 0] [0; 0; 0; 0]
             (selected "")) [0; 0; 5] = "none".
Proof.
  destruct (fallback_of_each_closure one_form_doc [0; 0]
              [0; 0; 0; 0] (selected "")) as [H1 H2].
  split.
  - apply (H1 ltac:(by_eval) "level" [0; 0; 5] ltac:(by_eval) eq_refl).
  - apply (H2 ltac:(by_eval) "level" [0; 0; 5] ltac:(by_eval) eq_refl).
Defined.

(** C2 as stated fails in [toggleFields]: with an empty selector value the
    row of hours ends hidden, not shown. *)
Lemma toggleFields_fallback_hides :
  ~ (forall (doc : element) (inline select : path) (st : page) (f : string),
       value st select ∉ modes -> f ∈ fields ->
       (forall r, offer_field_row doc inline f = Some r ->
          display (toggleOfferFields doc inline select st) r = "") /\
       (forall r, toggle_field_row doc inline f = Some r ->
          display (toggleFields doc inline select st) r = "")).
Proof.
  intros H.
  destruct (H one_form_doc [0; 0] [0; 0; 0; 0] (selected "") "hours"
              ltac:(by_eval) ltac:(by_eval)) as [_ H2].
  specialize (H2 [0; 0; 1] eq_refl). vm_compute in H2. discriminate H2.
Qed.

(** In [toggleOfferFields] the fallback is decided on the lower-cased
    value: "LESSON" is none of the four modes as written, and is treated as
    lesson. *)
Example upper_case_mode_is_recognized :
  ("LESSON" ∉ modes) /\
  display (toggleOfferFields one_form_doc [0; 0] [0; 0; 0; 0]
             (selected "LESSON")) [0; 0; 2] = "none".
Proof. split; [by_eval | vm_compute; reflexivity]. Qed.

(** C5. Running either closure twice in a row on a form leaves the page
    exactly as running it once. *)
Theorem toggle_twice_is_once (doc : element) (inline select : path)
    (st : page) :
  toggleOfferFields doc inline select (toggleOfferFields doc inline select st)
  = toggleOfferFields doc inline select st
  /\ toggleFields doc inline select (toggleFields doc inline select st)
     = toggleFields doc inline select st.
Proof.
  split.
  - unfold toggleOfferFields.
    rewrite (toggleOfferFields_over_writes fields doc inline select
               (toggleOfferFields_over fields doc inline select st)).
    rewrite toggleOfferFields_over_value.
    rewrite (toggleOfferFields_over_writes fields doc inline select st).
    apply write_fields_idem.
  - unfold toggleFields.
    rewrite (toggleFields_over_writes fields doc inline select
               (toggleFields_over fields doc inline select st)).
    rewrite toggleFields_over_value.
    rewrite (toggleFields_over_writes fields doc inline select st).
    apply write_fields_idem.
Qed.

(** C6. A field whose row is not found is passed over: its visit changes
    nothing on the page, the evaluation is the one over the other field
    names, and an element that is no field's row keeps its display.  The
    closures are total functions of the page: nothing is raised. *)
Theorem unlocated_field_is_skipped (doc : element) (inline select : path)
    (st : page) (f : string) :
  f ∈ fields ->
  (offer_field_row doc inline f = None ->
   (forall val st', toggleOfferFields_field doc inline val st' f = st') /\
   toggleOfferFields doc inline select st
   = toggleOfferFields_over (filter (fun g => g <> f) fields)
       doc inline select st /\
   (forall q, (forall g, g ∈ fields -> offer_field_row doc inline g <> Some q) ->
      display (toggleOfferFields doc inline select st) q = display st q)) /\
  (toggle_field_row doc inline f = None ->
   (forall val st', toggleFields_field doc inline val st' f = st') /\
   toggleFields doc inline select st
   = toggleFields_over (filter (fun g => g <> f) fields)
       doc inline select st /\
   (forall q, (forall g, g ∈ fields -> toggle_field_row doc inline g <> Some q) ->
      display (toggleFields doc inline select st) q = display st q)).
Proof.
  intros _. split; intros Hrow; repeat split.
  - intros val st'. unfold toggleOfferFields_field. rewrite Hrow. reflexivity.
  - unfold toggleOfferFields. rewrite !toggleOfferFields_over_writes.
    symmetry. apply write_fields_drop. exact Hrow.
  - intros q Hq. apply display_lookup. unfold toggleOfferFields.
    rewrite toggleOfferFields_over_writes.
    apply write_fields_untouched. exact Hq.
  - intros val st'. unfold toggleFields_field. rewrite Hrow. reflexivity.
  - unfold toggleFields. rewrite !toggleFields_over_writes.
    symmetry. apply write_fields_drop. exact Hrow.
  - intros q Hq. apply display_lookup. unfold toggleFields.
    rewrite toggleFields_over_writes.
    apply write_fields_untouched. exact Hq.
Qed.

Lemma unlocated_field_is_skipped_witness :
  (toggleOfferFields shared_line_doc [0; 0] [0; 0; 0; 0]
     (selected "lesson")
   = toggleOfferFields_over (filter (fun g => g <> "students") fields)
       shared_line_doc [0; 0] [0; 0; 0; 0] (selected "lesson")
   /\ display (toggleOfferFields shared_line_doc [0; 0] [0; 0; 0; 0]
                (selected "lesson")) [0; 0; 0]
      = display (selected "lesson") [0; 0; 0])
  /\ (toggleFields shared_line_doc [0; 0] [0; 0; 0; 0]
        (selected "lesson")
      = toggleFields_over (filter (fun g => g <> "students") fields)
          shared_line_doc [0; 0] [0; 0; 0; 0] (selected "lesson")
      /\ display (toggleFields shared_line_doc [0; 0] [0; 0; 0; 0]
                   (selected "lesson")) [0; 0; 0]
         = display (selected "lesson") [0; 0; 0]).
Proof.
  destruct (unlocated_field_is_skipped shared_line_doc [0; 0]
              [0; 0; 0; 0] (selected "lesson") "students"
              ltac:(by_eval))
    as [H1 H2].
  destruct (H1 eq_refl) as (_ & E1 & F1).
  destruct (H2 eq_refl) as (_ & E2 & F2).
  split; split.
  - exact E1.
  - apply F1. intros g Hg. revert g Hg. apply Forall_forall.
    by_eval.
  - exact E2.
  - apply F2. intros g Hg. revert g Hg. apply Forall_forall.
    by_eval.
Defined.

(** C8. [toggleOfferFields] lower-cases the selector value: the displays it
    leaves for a value are those it leaves for the lower-cased value.
    [toggleFields] compares the value as it is, and on "Lesson" the two
    closures leave different displays. *)
Theorem case_folding_differs (doc : element) (inline select : path)
    (st : page) (s : string) :
  style_display (toggleOfferFields doc inline select (set_value select s st))
  = style_display
      (toggleOfferFields doc inline select
         (set_value select (toLowerCase s) st))
  /\ exists (doc' : element) (inline' select' r : path) (st' : page),
       value st' select' = "Lesson" /\
       display (toggleOfferFields doc' inline' select' st') r = "" /\
       display (toggleFields doc' inline' select' st') r = "none" /\
       display (toggleFields doc' inline' select' (set_value select' "lesson" st')) r
       = "".
Proof.
  split.
  - unfold toggleOfferFields. rewrite !toggleOfferFields_over_writes.
    assert (Hv : forall v, value (set_value select v st) select = v).
    { intros v. unfold value, set_value. simpl.
      rewrite lookup_insert_eq. reflexivity. }
    rewrite !Hv, toLowerCase_idem.
    apply map_eq. intros q. rewrite !write_fields_lookup. reflexivity.
  - exists one_form_doc, [0; 0], [0; 0; 0; 0], [0; 0; 1],
      (selected "Lesson").
    repeat split; vm_compute; reflexivity.
Qed.

(** C9. In [toggleFields] every selector value other than "lesson", "course"
    and "experience" (so "rental", the empty string, "Lesson", any other
    string) hides the row of every field that has one. *)
Theorem toggleFields_hides_all_otherwise (doc : element)
    (inline select : path) (st : page) :
  value st select <> "lesson" ->
  value st select <> "course" ->
  value st select <> "experience" ->
  forall f r, f ∈ fields -> toggle_field_row doc inline f = Some r ->
    display (toggleFields doc inline select st) r = "none".
Proof.
  intros H1 H2 H3 f r Hf Hrow. apply display_Some.
  unfold toggleFields. rewrite toggleFields_over_writes.
  apply write_fields_uniform.
  - intros g _ _. apply toggle_display_else; assumption.
  - exists f. split; assumption.
Qed.

Lemma toggleFields_hides_all_otherwise_witness :
  display (toggleFields one_form_doc [0; 0] [0; 0; 0; 0]
             (selected "rental")) [0; 0; 1] = "none"
  /\ display (toggleFields one_form_doc [0; 0] [0; 0; 0; 0]
             (selected "Lesson")) [0; 0; 1] = "none".
Proof.
  split.
  - apply (toggleFields_hides_all_otherwise one_form_doc [0; 0]
             [0; 0; 0; 0] (selected "rental")
             ltac:(vm_compute; discriminate) ltac:(vm_compute; discriminate)
             ltac:(vm_compute; discriminate) "hours" [0; 0; 1] ltac:(by_eval) eq_refl).
  - apply (toggleFields_hides_all_otherwise one_form_doc [0; 0]
             [0; 0; 0; 0] (selected "Lesson")
             ltac:(vm_compute; discriminate) ltac:(vm_compute; discriminate)
             ltac:(vm_compute; discriminate) "hours" [0; 0; 1] ltac:(by_eval) eq_refl).
Defined.

(** * Forms next to each other *)

(** C4 (as amended). For two forms neither of which lies inside the other,
    changing the selector of the one and running its evaluation again leaves
    the display of every element of the other (the form itself and all that
    is inside it) as it was.  Both closures. *)
Theorem apart_forms_are_isolated (doc : element) (a select_a b q : path)
    (v : string) (st : page) :
  ~ a `prefix_of` b ->
  ~ b `prefix_of` a ->
  b `prefix_of` q ->
  display (toggleOfferFields doc a select_a (set_value select_a v st)) q
  = display st q
  /\ display (toggleFields doc a select_a (set_value select_a v st)) q
     = display st q.
Proof.
  intros Hab Hba Hbq.
  pose proof (not_reached_apart a b q Hab Hba Hbq) as Hq.
  split; apply display_lookup.
  - unfold toggleOfferFields. rewrite toggleOfferFields_over_writes.
    rewrite write_fields_untouched; [reflexivity|].
    intros f _ Hrow. apply Hq. apply (offer_field_row_reached _ _ _ _ Hrow).
  - unfold toggleFields. rewrite toggleFields_over_writes.
    rewrite write_fields_untouched; [reflexivity|].
    intros f _ Hrow. apply Hq. apply (toggle_field_row_reached _ _ _ _ Hrow).
Qed.

Lemma apart_forms_are_isolated_witness :
  display (toggleOfferFields two_forms_doc [0; 0; 0] [0; 0; 0; 0; 0]
             (set_value [0; 0; 0; 0; 0] "lesson" empty_page))
          [0; 0; 1; 2]
  = display empty_page [0; 0; 1; 2]
  /\ display (toggleFields two_forms_doc [0; 0; 0] [0; 0; 0; 0; 0]
             (set_value [0; 0; 0; 0; 0] "lesson" empty_page))
          [0; 0; 1; 2]
     = display empty_page [0; 0; 1; 2].
Proof.
  apply (apart_forms_are_isolated two_forms_doc [0; 0; 0]
           [0; 0; 0; 0; 0] [0; 0; 1] [0; 0; 1; 2] "lesson"
           empty_page);
    by_eval.
Defined.

(** C4 as stated fails for a form inside another, in both closures: in
    [nested_doc] the outer form has its own selector and no row for level,
    so its evaluation finds the level row of the nested form and, with the
    outer selector on lesson, hides it. *)
Lemma nested_form_is_not_isolated :
  ~ (forall (doc : element) (a select_a b select_b r : path) (v f : string)
            (st : page),
       a ∈ querySelectorAll doc None sel_inline_related ->
       b ∈ querySelectorAll doc None sel_inline_related ->
       a <> b ->
       querySelector doc (Some a) sel_offer_type = Some select_a ->
       querySelector doc (Some b) sel_offer_type = Some select_b ->
       select_a <> select_b ->
       f ∈ fields ->
       toggle_field_row doc b f = Some r ->
       display (toggleFields doc a select_a (set_value select_a v st)) r
       = display st r) /\
  ~ (forall (doc : element) (a select_a b select_b r : path) (v f : string)
            (st : page),
       a ∈ querySelectorAll doc None sel_inline_or_group ->
       b ∈ querySelectorAll doc None sel_inline_or_group ->
       a <> b ->
       querySelector doc (Some a) sel_offer_type = Some select_a ->
       querySelector doc (Some b) sel_offer_type = Some select_b ->
       select_a <> select_b ->
       f ∈ fields ->
       offer_field_row doc b f = Some r ->
       display (toggleOfferFields doc a select_a (set_value select_a v st)) r
       = display st r).
Proof.
  split; intros H;
    specialize (H nested_doc [0; 0] [0; 0; 0; 0] [0; 0; 2; 0]
                  [0; 0; 2; 0; 0; 0] [0; 0; 2; 0; 5] "lesson" "level"
                  (set_value [0; 0; 2; 0; 0; 0] "course" empty_page)
                  ltac:(by_eval) ltac:(by_eval) ltac:(discriminate)
                  eq_refl eq_refl ltac:(discriminate) ltac:(by_eval)
                  eq_refl);
    vm_compute in H; discriminate H.
Qed.

(** * Initialization *)

Lemma foldl_filter_skip {A B : Type} `{EqDecision B} (step : A -> B -> A)
    (x : B) (l : list B) (a : A) :
  (forall a', step a' x = a') ->
  foldl step a (filter (fun y => y <> x) l) = foldl step a l.
Proof.
  intros Hx. revert a. induction l as [|y l IH]; intros a; [reflexivity|].
  rewrite filter_cons. destruct (decide (y <> x)) as [Hne|Heq]; simpl.
  - apply IH.
  - apply dec_stable in Heq. subst y. rewrite Hx. apply IH.
Qed.

(** The containers that can write inside a container without selector are
    those around it: the ones inside it have no selector either, and the
    ones apart from it do not reach into it. *)
Lemma selectorless_inside_untouched (row : path -> string -> option path)
    (doc : element) (inline d q : path) :
  (forall a f r, row a f = Some r -> reached_from a r) ->
  querySelector doc (Some inline) sel_offer_type = None ->
  (d `prefix_of` inline -> querySelector doc (Some d) sel_offer_type = None) ->
  inline `prefix_of` q ->
  querySelector doc (Some d) sel_offer_type = None \/
  (forall g, g ∈ fields -> row d g <> Some q).
Proof.
  intros Hrow Hsel Haround Hq.
  destruct (decide (d `prefix_of` inline)) as [Hd|Hd]; [left; auto|].
  destruct (decide (inline `prefix_of` d)) as [Hi|Hi].
  - left. apply (querySelector_inside doc inline d _ Hi Hsel).
  - right. intros g _ Hg.
    apply (not_reached_apart d inline q Hd Hi Hq). apply (Hrow _ _ _ Hg).
Qed.

(** C7 (as amended). A matched container in which no selector is found is
    passed over by either initialization: its visit leaves the page as it is
    (no listener added, no evaluation, no display written), and the
    initialization is the one over the other matched containers.  When no
    matched container of the scope around it has a selector, the
    initialization leaves the display of every element inside it as it
    was. *)
Theorem selectorless_inline_is_skipped (doc : element)
    (context : option path) (inline : path) (st : page) :
  querySelector doc (Some inline) sel_offer_type = None ->
  ((forall st', initOfferTypeFields_inline doc st' inline = st') /\
   initOfferTypeFields doc context st
   = foldl (initOfferTypeFields_inline doc) st
       (filter (fun i => i <> inline)
          (querySelectorAll doc context sel_inline_or_group)) /\
   ((forall d, d ∈ querySelectorAll doc context sel_inline_or_group ->
       d `prefix_of` inline ->
       querySelector doc (Some d) sel_offer_type = None) ->
    forall q, inline `prefix_of` q ->
      display (initOfferTypeFields doc context st) q = display st q)) /\
  ((forall st', initOfferTypeToggles_inline doc st' inline = st') /\
   initOfferTypeToggles doc context st
   = foldl (initOfferTypeToggles_inline doc) st
       (filter (fun i => i <> inline)
          (querySelectorAll doc context sel_inline_related)) /\
   ((forall d, d ∈ querySelectorAll doc context sel_inline_related ->
       d `prefix_of` inline ->
       querySelector doc (Some d) sel_offer_type = None) ->
    forall q, inline `prefix_of` q ->
      display (initOfferTypeToggles doc context st) q = display st q)).
Proof.
  intros Hsel.
  assert (H1 : forall st', initOfferTypeFields_inline doc st' inline = st').
  { intros st'. unfold initOfferTypeFields_inline. rewrite Hsel. reflexivity. }
  assert (H2 : forall st', initOfferTypeToggles_inline doc st' inline = st').
  { intros st'. unfold initOfferTypeToggles_inline. rewrite Hsel. reflexivity. }
  split; (split; [assumption|]); split.
  - unfold initOfferTypeFields. symmetry. apply foldl_filter_skip. exact H1.
  - intros Haround q Hq. apply display_lookup. unfold initOfferTypeFields.
    change (initOfferTypeFields_inline doc)
      with (visit_inline (offer_field_row doc) offer_display toLowerCase
              ToggleOfferFields doc).
    apply visits_untouched. intros d Hd.
    apply (selectorless_inside_untouched (offer_field_row doc) doc inline d q);
      [intros a f r; apply offer_field_row_reached | exact Hsel
      | intros Hp; apply Haround; assumption | exact Hq].
  - unfold initOfferTypeToggles. symmetry. apply foldl_filter_skip. exact H2.
  - intros Haround q Hq. apply display_lookup. unfold initOfferTypeToggles.
    change (initOfferTypeToggles_inline doc)
      with (visit_inline (toggle_field_row doc) toggle_display (fun v => v)
              ToggleFields doc).
    apply visits_untouched. intros d Hd.
    apply (selectorless_inside_untouched (toggle_field_row doc) doc inline d q);
      [intros a f r; apply toggle_field_row_reached | exact Hsel
      | intros Hp; apply Haround; assumption | exact Hq].
Qed.

Lemma selectorless_inline_is_skipped_witness :
  (initOfferTypeFields mixed_doc None (selected "lesson")
   = foldl (initOfferTypeFields_inline mixed_doc) (selected "lesson")
       (filter (fun i => i <> [0; 0])
          (querySelectorAll mixed_doc None sel_inline_or_group))
   /\ display (initOfferTypeFields mixed_doc None (selected "lesson"))
        [0; 0; 1]
      = display (selected "lesson") [0; 0; 1])
  /\ (initOfferTypeToggles mixed_doc None (selected "lesson")
      = foldl (initOfferTypeToggles_inline mixed_doc) (selected "lesson")
          (filter (fun i => i <> [0; 0])
             (querySelectorAll mixed_doc None sel_inline_related))
      /\ display (initOfferTypeToggles mixed_doc None (selected "lesson"))
           [0; 0; 1]
         = display (selected "lesson") [0; 0; 1]).
Proof.
  assert (Hp : [0; 0] `prefix_of` [0; 0; 1]) by by_eval.
  destruct (selectorless_inline_is_skipped mixed_doc None [0; 0]
              (selected "lesson") eq_refl) as [(_ & H1 & F1) (_ & H2 & F2)].
  split; split.
  - exact H1.
  - apply F1; [|exact Hp]. intros d Hd Hpre.
    vm_compute in Hd. set_unfold in Hd. destruct Hd as [-> | [-> | []]];
      [reflexivity|]. exfalso. revert Hpre.
    change (~ [0; 1] `prefix_of` [0; 0]).
    by_eval.
  - exact H2.
  - apply F2; [|exact Hp]. intros d Hd Hpre.
    vm_compute in Hd. set_unfold in Hd. destruct Hd as [-> | [-> | []]];
      [reflexivity|]. exfalso. revert Hpre.
    change (~ [0; 1] `prefix_of` [0; 0]).
    by_eval.
Defined.

(** C7 as stated fails where a matched container with a selector encloses
    one without.  In [group_mixed_doc] the group finds the selector of the
    second form and the rows of the first, so with that selector on lesson
    [initOfferTypeFields] hides the classes row of the first form, which has
    no selector; in [nested_selectorless_doc] [initOfferTypeToggles] does
    the same to the inner form. *)
Lemma enclosing_group_writes_selectorless_form :
  ~ (forall (doc : element) (context : option path) (inline r : path)
            (f : string) (st : page),
       inline ∈ querySelectorAll doc context sel_inline_or_group ->
       querySelector doc (Some inline) sel_offer_type = None ->
       f ∈ fields ->
       offer_field_row doc inline f = Some r ->
       display (initOfferTypeFields doc context st) r = display st r)
  /\
  ~ (forall (doc : element) (context : option path) (inline r : path)
            (f : string) (st : page),
       inline ∈ querySelectorAll doc context sel_inline_related ->
       querySelector doc (Some inline) sel_offer_type = None ->
       f ∈ fields ->
       toggle_field_row doc inline f = Some r ->
       display (initOfferTypeToggles doc context st) r = display st r).
Proof.
  split; intros H.
  - specialize (H group_mixed_doc None [0; 0; 0] [0; 0; 0; 1] "classes"
                  (set_value [0; 0; 1; 0; 0] "lesson" empty_page)
                  ltac:(by_eval) eq_refl ltac:(by_eval) eq_refl).
    vm_compute in H. discriminate H.
  - specialize (H nested_selectorless_doc None [0; 0; 1] [0; 0; 1; 1]
                  "classes" (selected "lesson")
                  ltac:(by_eval) eq_refl ltac:(by_eval) eq_refl).
    vm_compute in H. discriminate H.
Qed.

(** A container found by either initialization in which a selector is found
    gets its closure registered on that selector, and each of its rows shows
    at once what the closure assigns for the selector's current value, when
    its rows are pairwise distinct and no container visited after it writes
    that row. *)
Lemma discovered_form_is_evaluated (doc : element) (context : option path)
    (l1 l2 : list path) (inline select r : path) (f : string) (st : page) :
  querySelector doc (Some inline) sel_offer_type = Some select ->
  f ∈ fields ->
  (querySelectorAll doc context sel_inline_or_group = l1 ++ inline :: l2 ->
   NoDup (omap (offer_field_row doc inline) fields) ->
   offer_field_row doc inline f = Some r ->
   (forall d, d ∈ l2 ->
      querySelector doc (Some d) sel_offer_type = None \/
      (forall g, g ∈ fields -> offer_field_row doc d g <> Some r)) ->
   (select, ToggleOfferFields inline select)
     ∈ change_listeners (initOfferTypeFields doc context st) /\
   display (initOfferTypeFields doc context st) r
   = offer_display (toLowerCase (value st select)) f) /\
  (querySelectorAll doc context sel_inline_related = l1 ++ inline :: l2 ->
   NoDup (omap (toggle_field_row doc inline) fields) ->
   toggle_field_row doc inline f = Some r ->
   (forall d, d ∈ l2 ->
      querySelector doc (Some d) sel_offer_type = None \/
      (forall g, g ∈ fields -> toggle_field_row doc d g <> Some r)) ->
   (select, ToggleFields inline select)
     ∈ change_listeners (initOfferTypeToggles doc context st) /\
   display (initOfferTypeToggles doc context st) r
   = toggle_display (value st select) f).
Proof.
  intros Hsel Hf. split; intros Hl Hnd Hr Hl2.
  - unfold initOfferTypeFields. rewrite Hl.
    apply (visits_discovered (offer_field_row doc) offer_display toLowerCase
             ToggleOfferFields doc l1 l2 inline select r f st);
      assumption.
  - unfold initOfferTypeToggles. rewrite Hl.
    apply (visits_discovered (toggle_field_row doc) toggle_display
             (fun v => v) ToggleFields doc l1 l2 inline select r f st);
      assumption.
Qed.

(** The root of a query is not among its answers, so the handler of
    ["formset:added"] never visits the element the event names. *)
Lemma formset_added_skips_new_form (doc : element) (ev : formset_added)
    (p : path) :
  newForm ev = Some p ->
  (p ∉ querySelectorAll doc (newForm ev) sel_inline_or_group) /\
  (p ∉ querySelectorAll doc (newForm ev) sel_inline_related).
Proof.
  intros ->. split; apply querySelectorAll_excludes_scope.
Qed.

(** Whatever the page, the handlers of ["formset:added"] register no
    closure for the element the event names. *)
Lemma formset_added_registers_nothing_for_new_form (doc : element)
    (ev : formset_added) (p select : path) (st : page) :
  newForm ev = Some p ->
  ((select, ToggleOfferFields p select)
     ∈ change_listeners (onFormsetAdded_fields doc ev st) ->
   (select, ToggleOfferFields p select) ∈ change_listeners st) /\
  ((select, ToggleFields p select)
     ∈ change_listeners (onFormsetAdded_toggles doc ev st) ->
   (select, ToggleFields p select) ∈ change_listeners st).
Proof.
  intros Hp. unfold onFormsetAdded_fields, onFormsetAdded_toggles.
  rewrite Hp. split; intros H.
  - unfold initOfferTypeFields in H.
    change (initOfferTypeFields_inline doc)
      with (visit_inline (offer_field_row doc) offer_display toLowerCase
              ToggleOfferFields doc) in H.
    apply visits_listeners_from in H as [H | (d & s & Hd & [= _ -> _])];
      [exact H|].
    exfalso. apply (querySelectorAll_excludes_scope _ _ _ Hd).
  - unfold initOfferTypeToggles in H.
    change (initOfferTypeToggles_inline doc)
      with (visit_inline (toggle_field_row doc) toggle_display (fun v => v)
              ToggleFields doc) in H.
    apply visits_listeners_from in H as [H | (d & s & Hd & [= _ -> _])];
      [exact H|].
    exfalso. apply (querySelectorAll_excludes_scope _ _ _ Hd).
Qed.

(** At page load the second form of [two_forms_doc] is found: its closure is
    registered and its row of hours follows its selector. *)
Example page_load_evaluates_second_form :
  let st := set_value [0; 0; 1; 0; 0] "course" empty_page in
  ([0; 0; 1; 0; 0], ToggleOfferFields [0; 0; 1] [0; 0; 1; 0; 0])
    ∈ change_listeners (onDOMContentLoaded_fields two_forms_doc st) /\
  display (onDOMContentLoaded_fields two_forms_doc st) [0; 0; 1; 1] = "none".
Proof.
  intros st.
  destruct (discovered_form_is_evaluated two_forms_doc None
              [[0; 0]; [0; 0; 0]] [] [0; 0; 1] [0; 0; 1; 0; 0]
              [0; 0; 1; 1] "hours" st eq_refl ltac:(by_eval)) as [H _].
  apply H; [reflexivity | by_eval | reflexivity | intros d Hd; inversion Hd].
Qed.

(** C3, at the failing input. A second form is added to the group of
    [two_forms_doc] with its selector on course, and ["formset:added"] fires
    with that form as target.  At page load the form would be found and
    evaluated, hiding its row of hours.  Either handler of the event leaves
    the page as it was: no listener is registered, the row of hours of the
    new form stays shown, and a later change of its selector does nothing
    either. *)
Theorem added_form_is_not_initialized :
  let ev := FormsetAdded None [0; 0; 1] in
  let st := set_value [0; 0; 1; 0; 0] "course" empty_page in
  newForm ev = Some [0; 0; 1] /\
  querySelector two_forms_doc (Some [0; 0; 1]) sel_offer_type
    = Some [0; 0; 1; 0; 0] /\
  offer_field_row two_forms_doc [0; 0; 1] "hours" = Some [0; 0; 1; 1] /\
  toggle_field_row two_forms_doc [0; 0; 1] "hours" = Some [0; 0; 1; 1] /\
  table_display "course" "hours" = "none" /\
  display (onDOMContentLoaded_fields two_forms_doc st) [0; 0; 1; 1]
    = "none" /\
  display (onDOMContentLoaded_toggles two_forms_doc st) [0; 0; 1; 1]
    = "none" /\
  onFormsetAdded_fields two_forms_doc ev st = st /\
  onFormsetAdded_toggles two_forms_doc ev st = st /\
  display (onFormsetAdded_fields two_forms_doc ev st) [0; 0; 1; 1] = "" /\
  display (onFormsetAdded_toggles two_forms_doc ev st) [0; 0; 1; 1] = "" /\
  display (user_selects two_forms_doc [0; 0; 1; 0; 0] "course"
             (onFormsetAdded_fields two_forms_doc ev st)) [0; 0; 1; 1]
    = "".
Proof.
  cbv zeta. repeat split; vm_compute; reflexivity.
Qed.
(** * The drawer of the header *)

Lemma click_errors_grow (doc : element) (refs : drawer_refs) (target : path)
    (l : list (path * click_listener)) (acc : header_page * list error)
    (e : error) :
  e ∈ acc.2 ->
  e ∈ (foldl (fun acc tl =>
           if decide (tl.1 = target) then
             match run_click_listener doc refs tl.2 acc.1 with
             | Ok st' => (st', acc.2)
             | Throw e st' => (st', acc.2 ++ [e])
             end
           else acc) acc l).2.
Proof.
  revert acc. induction l as [|tl l IH]; intros acc He; simpl; [exact He|].
  apply IH. destruct (decide (tl.1 = target)); [|exact He].
  destruct (run_click_listener doc refs tl.2 acc.1); simpl; [exact He|].
  apply elem_of_app. left. exact He.
Qed.

Lemma elem_of_add_click_listener (p : path) (l : click_listener)
    (st : header_page) (x : path * click_listener) :
  x ∈ click_listeners (add_click_listener p l st) <->
  x ∈ click_listeners st \/ x = (p, l).
Proof.
  unfold add_click_listener.
  destruct (decide ((p, l) ∈ click_listeners st)) as [Hin|Hin]; simpl.
  - split; [auto | intros [H | ->]; assumption].
  - rewrite elem_of_app, list_elem_of_singleton. reflexivity.
Qed.

Lemma closeDrawer_no_drawer (doc : element) (refs : drawer_refs)
    (st : header_page) :
  mobileDrawer refs = None -> closeDrawer doc refs st = Throw TypeError st.
Proof. unfold closeDrawer. intros ->. reflexivity. Qed.

Lemma click_reports_closeDrawer (doc : element) (refs : drawer_refs)
    (target : path) (st : header_page) :
  mobileDrawer refs = None ->
  (target, CloseDrawer) ∈ click_listeners st ->
  TypeError ∈ (click doc refs target st).2.
Proof.
  intros Hd Hin. unfold click.
  apply list_elem_of_split in Hin as (l1 & l2 & ->).
  rewrite foldl_app. simpl. apply click_errors_grow.
  rewrite decide_True by reflexivity. simpl.
  rewrite closeDrawer_no_drawer by exact Hd. simpl.
  apply elem_of_app. right. left.
Qed.

(** C10. On a page with the overlay or the close button of the drawer but no
    drawer, DOMContentLoaded registers [closeDrawer] on that element, and a
    click on it makes [closeDrawer] throw a TypeError at its first
    statement, reported as an uncaught error. *)
Theorem closeDrawer_throws_without_drawer (doc : element) (st : header_page)
    (x : path) :
  querySelector doc None (has_class "mobile-drawer") = None ->
  (querySelector doc None (has_class "mobile-drawer__overlay") = Some x \/
   querySelector doc None (has_class "mobile-drawer__close") = Some x) ->
  (x, CloseDrawer) ∈ click_listeners (header_onDOMContentLoaded doc st) /\
  (forall st', closeDrawer doc (header_refs doc) st' = Throw TypeError st') /\
  TypeError
  ∈ (click doc (header_refs doc) x (header_onDOMContentLoaded doc st)).2.
Proof.
  intros Hd Hx.
  assert (Hreg : (x, CloseDrawer)
                 ∈ click_listeners (header_onDOMContentLoaded doc st)).
  { unfold header_onDOMContentLoaded, header_refs. simpl. rewrite Hd.
    destruct Hx as [Hx|Hx]; rewrite Hx.
    - destruct (querySelector doc None (has_class "mobile-drawer__close"));
        rewrite ?elem_of_add_click_listener; auto.
    - destruct (querySelector doc None (has_class "mobile-drawer__overlay"));
        rewrite ?elem_of_add_click_listener; auto. }
  split; [exact Hreg|]. split.
  - intros st'. apply closeDrawer_no_drawer. exact Hd.
  - apply click_reports_closeDrawer; [exact Hd | exact Hreg].
Qed.

Lemma closeDrawer_throws_without_drawer_witness :
  TypeError
  ∈ (click no_drawer_doc (header_refs no_drawer_doc) [0; 0; 1]
       (header_onDOMContentLoaded no_drawer_doc empty_header_page)).2.
Proof.
  apply (closeDrawer_throws_without_drawer no_drawer_doc empty_header_page
           [0; 0; 1] eq_refl (or_introl eq_refl)).
Defined.

(** * More on the two initializations *)

Section VisitsAgain.
Variable row : path -> string -> option path.
Variable disp : string -> string -> string.
Variable norm : string -> string.
Variable mk : path -> path -> listener.
Variable doc : element.

Local Abbreviation visit := (visit_inline row disp norm mk doc).

Lemma visits_listeners (l : list path) (st : page) :
  change_listeners (foldl visit st l)
  = change_listeners st ++ registered mk doc l.
Proof.
  revert st. induction l as [|d l IH]; intros st; simpl.
  - rewrite app_nil_r. reflexivity.
  - rewrite IH, visit_listeners.
    destruct (querySelector doc (Some d) sel_offer_type); simpl.
    + rewrite <- app_assoc. reflexivity.
    + rewrite app_nil_r. reflexivity.
Qed.



End VisitsAgain.

(** X1. Either initialization appends, to the listeners there are, exactly
    one closure for each matched container in which a selector is found, on
    that selector and in document order; it removes none, never checks
    whether the container already has one, and leaves the selector values
    as they are. *)
Theorem initialization_registers_per_selector (doc : element)
    (context : option path) (st : page) :
  (change_listeners (initOfferTypeFields doc context st)
   = change_listeners st
     ++ registered ToggleOfferFields doc
          (querySelectorAll doc context sel_inline_or_group) /\
   select_value (initOfferTypeFields doc context st) = select_value st) /\
  (change_listeners (initOfferTypeToggles doc context st)
   = change_listeners st
     ++ registered ToggleFields doc
          (querySelectorAll doc context sel_inline_related) /\
   select_value (initOfferTypeToggles doc context st) = select_value st).
Proof.
  split; split.
  - apply (visits_listeners (offer_field_row doc) offer_display toLowerCase
             ToggleOfferFields doc).
  - apply (visits_value (offer_field_row doc) offer_display toLowerCase
             ToggleOfferFields doc).
  - apply (visits_listeners (toggle_field_row doc) toggle_display
             (fun v => v) ToggleFields doc).
  - apply (visits_value (toggle_field_row doc) toggle_display
             (fun v => v) ToggleFields doc).
Qed.



(** X3. The handler of ["formset:added"] writes only at the element the
    event names, inside it, or on its ancestors: every element that is
    neither inside that element nor around it keeps its display. *)
Theorem formset_added_frame (doc : element) (ev : formset_added)
    (p q : path) (st : page) :
  newForm ev = Some p ->
  ~ p `prefix_of` q ->
  ~ q `prefix_of` p ->
  display (onFormsetAdded_fields doc ev st) q = display st q /\
  display (onFormsetAdded_toggles doc ev st) q = display st q.
Proof.
  intros Hev Hpq Hqp.
  assert (Hfar : forall d, p `prefix_of` d -> ~ reached_from d q).
  { intros d Hd [x [Hdx Hqx]].
    destruct (prefix_weak_total p q x) as [H|H]; auto.
    transitivity d; assumption. }
  unfold onFormsetAdded_fields, onFormsetAdded_toggles. rewrite Hev.
  split; apply display_lookup.
  - apply (visits_untouched (offer_field_row doc) offer_display toLowerCase
             ToggleOfferFields doc).
    intros d Hd. right. intros g _ Hg.
    apply querySelectorAll_below in Hd as [k [_ ->]].
    apply (Hfar (p ++ k)); [apply prefix_app_r; reflexivity|].
    apply (offer_field_row_reached _ _ _ _ Hg).
  - apply (visits_untouched (toggle_field_row doc) toggle_display
             (fun v => v) ToggleFields doc).
    intros d Hd. right. intros g _ Hg.
    apply querySelectorAll_below in Hd as [k [_ ->]].
    apply (Hfar (p ++ k)); [apply prefix_app_r; reflexivity|].
    apply (toggle_field_row_reached _ _ _ _ Hg).
Qed.

Lemma formset_added_frame_witness :
  display (onFormsetAdded_fields nested_doc (FormsetAdded None [0; 0; 2])
             (selected "lesson")) [0; 0; 1]
  = display (selected "lesson") [0; 0; 1]
  /\ display (onFormsetAdded_toggles nested_doc (FormsetAdded None [0; 0; 2])
             (selected "lesson")) [0; 0; 1]
     = display (selected "lesson") [0; 0; 1].
Proof.
  apply (formset_added_frame nested_doc (FormsetAdded None [0; 0; 2])
           [0; 0; 2] [0; 0; 1] (selected "lesson") eq_refl);
    by_eval.
Defined.

(** * Change events *)

Lemma run_listener_value (doc : element) (l : listener) (st : page) :
  select_value (run_listener doc l st) = select_value st.
Proof.
  destruct l as [d s|d s]; simpl.
  - unfold toggleOfferFields. rewrite toggleOfferFields_over_writes.
    apply write_fields_value.
  - unfold toggleFields. rewrite toggleFields_over_writes.
    apply write_fields_value.
Qed.

Lemma run_listener_listeners (doc : element) (l : listener) (st : page) :
  change_listeners (run_listener doc l st) = change_listeners st.
Proof.
  destruct l as [d s|d s]; simpl.
  - unfold toggleOfferFields. rewrite toggleOfferFields_over_writes.
    apply write_fields_listeners.
  - unfold toggleFields. rewrite toggleFields_over_writes.
    apply write_fields_listeners.
Qed.

(** A closure writes only rows reached from the container it captured. *)
Lemma run_listener_untouched (doc : element) (l : listener) (st : page)
    (q : path) :
  ~ reached_from (listener_inline l) q ->
  style_display (run_listener doc l st) !! q = style_display st !! q.
Proof.
  intros Hq. destruct l as [d s|d s]; simpl in *.
  - unfold toggleOfferFields. rewrite toggleOfferFields_over_writes.
    apply write_fields_untouched. intros f _ Hf.
    apply Hq. apply (offer_field_row_reached _ _ _ _ Hf).
  - unfold toggleFields. rewrite toggleFields_over_writes.
    apply write_fields_untouched. intros f _ Hf.
    apply Hq. apply (toggle_field_row_reached _ _ _ _ Hf).
Qed.

Section Dispatch.
Variable doc : element.
Variable target : path.

Local Abbreviation step :=
  (fun (st : page) (tl : path * listener) =>
     if decide (tl.1 = target) then run_listener doc tl.2 st else st).

Lemma steps_value (ls : list (path * listener)) (st : page) :
  select_value (foldl step st ls) = select_value st.
Proof.
  revert st. induction ls as [|tl ls IH]; intros st; simpl; [reflexivity|].
  rewrite IH. destruct (decide (tl.1 = target)); [|reflexivity].
  apply run_listener_value.
Qed.

Lemma steps_listeners (ls : list (path * listener)) (st : page) :
  change_listeners (foldl step st ls) = change_listeners st.
Proof.
  revert st. induction ls as [|tl ls IH]; intros st; simpl; [reflexivity|].
  rewrite IH. destruct (decide (tl.1 = target)); [|reflexivity].
  apply run_listener_listeners.
Qed.

Lemma steps_untouched (ls : list (path * listener)) (st : page) (q : path) :
  (forall l, (target, l) ∈ ls -> ~ reached_from (listener_inline l) q) ->
  style_display (foldl step st ls) !! q = style_display st !! q.
Proof.
  revert st. induction ls as [|[t l] ls IH]; intros st H; simpl;
    [reflexivity|].
  rewrite IH by (intros l' Hl'; apply H; right; exact Hl').
  destruct (decide (t = target)) as [->|_]; [|reflexivity].
  apply run_listener_untouched. apply H. left.
Qed.

Lemma steps_skip (ls : list (path * listener)) (st : page) :
  (forall tl, tl ∈ ls -> tl.1 <> target) -> foldl step st ls = st.
Proof.
  revert st. induction ls as [|tl ls IH]; intros st H; simpl; [reflexivity|].
  rewrite decide_False by (apply H; left).
  apply IH. intros tl' Htl'. apply H. right. exact Htl'.
Qed.
End Dispatch.

(** What the closures registered when both variants visit a list of
    containers have in common. *)
Section DispatchAfterVisit.
Variable row : path -> string -> option path.
Variable disp : string -> string -> string.
Variable norm : string -> string.
Variable mk : path -> path -> listener.
Variable doc : element.
Hypothesis run_mk : forall d s st,
  run_listener doc (mk d s) st
  = foldl (write_field (row d) (disp (norm (value st s)))) st fields.

Lemma registered_app (l1 l2 : list path) :
  registered mk doc (l1 ++ l2) = registered mk doc l1 ++ registered mk doc l2.
Proof. apply omap_app. Qed.

Lemma registered_not_on (l : list path) (s : path) :
  (forall d, d ∈ l -> querySelector doc (Some d) sel_offer_type <> Some s) ->
  forall tl, tl ∈ registered mk doc l -> tl.1 <> s.
Proof.
  intros H tl Htl. apply list_elem_of_omap in Htl as [d [Hd Htl]].
  destruct (querySelector doc (Some d) sel_offer_type) as [s'|] eqn:Hs;
    [|discriminate]. injection Htl as <-. simpl. intros ->.
  apply (H d Hd). exact Hs.
Qed.

Lemma change_runs_last_closure (before : list (path * listener))
    (l2 : list path) (c s r : path) (f : string) (st : page) :
  (forall d, d ∈ l2 -> querySelector doc (Some d) sel_offer_type <> Some s) ->
  NoDup (omap (row c) fields) ->
  f ∈ fields ->
  row c f = Some r ->
  style_display
    (foldl (fun (st : page) (tl : path * listener) =>
              if decide (tl.1 = s) then run_listener doc tl.2 st else st)
       st (before ++ (s, mk c s) :: registered mk doc l2)) !! r
  = Some (disp (norm (value st s)) f).
Proof.
  intros Hl2 Hnd Hf Hr. rewrite foldl_app. simpl.
  rewrite decide_True by reflexivity.
  rewrite steps_skip by (apply registered_not_on; exact Hl2).
  rewrite run_mk. unfold value at 1. rewrite steps_value.
  apply write_fields_distinct; assumption.
Qed.
End DispatchAfterVisit.

(** X4. After either initialization, when the user picks a value in the
    selector of a container that was visited, the closure of the last
    visited container with that selector runs last, and each row of that
    container shows what the closure assigns for the new value, provided
    the rows of the container are pairwise distinct elements. *)
Theorem change_reevaluates_form (doc : element) (context : option path)
    (l1 l2 : list path) (c s r : path) (f v : string) (st : page) :
  querySelector doc (Some c) sel_offer_type = Some s ->
  (forall d, d ∈ l2 -> querySelector doc (Some d) sel_offer_type <> Some s) ->
  f ∈ fields ->
  (querySelectorAll doc context sel_inline_or_group = l1 ++ c :: l2 ->
   NoDup (omap (offer_field_row doc c) fields) ->
   offer_field_row doc c f = Some r ->
   display (user_selects doc s v (initOfferTypeFields doc context st)) r
   = offer_display (toLowerCase v) f) /\
  (querySelectorAll doc context sel_inline_related = l1 ++ c :: l2 ->
   NoDup (omap (toggle_field_row doc c) fields) ->
   toggle_field_row doc c f = Some r ->
   display (user_selects doc s v (initOfferTypeToggles doc context st)) r
   = toggle_display v f).
Proof.
  intros Hs Hl2 Hf.
  assert (Hv : forall st', value (set_value s v st') s = v).
  { intros st'. unfold value, set_value. simpl.
    rewrite lookup_insert_eq. reflexivity. }
  split; intros Hl Hnd Hr; apply display_Some;
    unfold user_selects, dispatch_change; simpl.
  - unfold initOfferTypeFields.
    rewrite (visits_listeners (offer_field_row doc) offer_display
               toLowerCase ToggleOfferFields doc).
    rewrite Hl, (registered_app ToggleOfferFields doc l1 (c :: l2)).
    simpl. rewrite Hs. simpl. rewrite app_assoc.
    rewrite (change_runs_last_closure (offer_field_row doc) offer_display
               toLowerCase ToggleOfferFields doc (fun _ _ _ => eq_refl)
               _ l2 c s r f _ Hl2 Hnd Hf Hr).
    rewrite Hv. reflexivity.
  - unfold initOfferTypeToggles.
    rewrite (visits_listeners (toggle_field_row doc) toggle_display
               (fun x => x) ToggleFields doc).
    rewrite Hl, (registered_app ToggleFields doc l1 (c :: l2)).
    simpl. rewrite Hs. simpl. rewrite app_assoc.
    rewrite (change_runs_last_closure (toggle_field_row doc) toggle_display
               (fun x => x) ToggleFields doc (fun _ _ _ => eq_refl)
               _ l2 c s r f _ Hl2 Hnd Hf Hr).
    rewrite Hv. reflexivity.
Qed.

Lemma change_reevaluates_form_witness :
  display (user_selects two_forms_doc [0; 0; 0; 0; 0] "Course"
             (initOfferTypeFields two_forms_doc None empty_page))
          [0; 0; 0; 1]
  = "none"
  /\ display (user_selects two_forms_doc [0; 0; 0; 0; 0] "course"
               (initOfferTypeToggles two_forms_doc None empty_page))
            [0; 0; 0; 2]
     = "".
Proof.
  assert (Hl2 : forall d, d ∈ [[0; 0; 1]] ->
            querySelector two_forms_doc (Some d) sel_offer_type
            <> Some [0; 0; 0; 0; 0]) by (apply Forall_forall; by_eval).
  split.
  - apply (proj1 (change_reevaluates_form two_forms_doc None [[0; 0]]
                    [[0; 0; 1]] [0; 0; 0] [0; 0; 0; 0; 0] [0; 0; 0; 1]
                    "hours" "Course" empty_page eq_refl Hl2 ltac:(by_eval))
             eq_refl ltac:(by_eval) eq_refl).
  - apply (proj2 (change_reevaluates_form two_forms_doc None []
                    [[0; 0; 1]] [0; 0; 0] [0; 0; 0; 0; 0] [0; 0; 0; 2]
                    "classes" "course" empty_page eq_refl Hl2
                    ltac:(by_eval))
             eq_refl ltac:(by_eval) eq_refl).
Defined.

(** X5. A change event on a selector changes no selector value and no
    listener, and writes only rows reached from the containers whose
    closures are registered on that selector: every other element keeps its
    display, and with no closure registered on the selector nothing is
    written at all. *)
Theorem change_event_frame (doc : element) (target q : path) (st : page) :
  select_value (dispatch_change doc target st) = select_value st /\
  change_listeners (dispatch_change doc target st) = change_listeners st /\
  ((forall l, (target, l) ∈ change_listeners st ->
      ~ reached_from (listener_inline l) q) ->
   display (dispatch_change doc target st) q = display st q) /\
  ((forall l, (target, l) ∉ change_listeners st) ->
   dispatch_change doc target st = st).
Proof.
  unfold dispatch_change. repeat split.
  - apply steps_value.
  - apply steps_listeners.
  - intros H. apply display_lookup. apply steps_untouched. exact H.
  - intros H. apply steps_skip. intros [t l] Htl Ht. simpl in Ht. subst t.
    exact (H l Htl).
Qed.

Lemma change_event_frame_witness :
  display (dispatch_change two_forms_doc [0; 0; 0; 0; 0]
             (set_value [0; 0; 0; 0; 0] "lesson"
                (initOfferTypeToggles two_forms_doc None empty_page)))
          [0; 0; 1; 2]
  = display (set_value [0; 0; 0; 0; 0] "lesson"
               (initOfferTypeToggles two_forms_doc None empty_page))
            [0; 0; 1; 2]
  /\ dispatch_change two_forms_doc [0; 0; 1; 0; 0]
       (onFormsetAdded_toggles two_forms_doc (FormsetAdded None [0; 0; 1])
          (set_value [0; 0; 1; 0; 0] "course" empty_page))
     = onFormsetAdded_toggles two_forms_doc (FormsetAdded None [0; 0; 1])
         (set_value [0; 0; 1; 0; 0] "course" empty_page).
Proof.
  split.
  - apply (proj1 (proj2 (proj2 (change_event_frame two_forms_doc
                                   [0; 0; 0; 0; 0] [0; 0; 1; 2] _)))).
    intros l Hl. vm_compute in Hl. set_unfold in Hl.
    destruct Hl as [[= ->] | [[=] | []]].
    simpl. intros [x [H1 H2]].
    destruct (prefix_weak_total [0; 0; 0] [0; 0; 1; 2] x H1 H2) as [H|H];
      revert H; by_eval.
  - apply (proj2 (proj2 (proj2 (change_event_frame two_forms_doc
                                   [0; 0; 1; 0; 0] [] _)))).
    intros l Hl. vm_compute in Hl. inversion Hl.
Defined.

(** * The two row lookups *)

Lemma closest_from_take (doc : element) (sel : selector) (p r : path)
    (n : nat) :
  closest_from doc sel p n = Some r -> exists m, m <= n /\ r = take m p.
Proof.
  induction n as [|n IH]; simpl; destruct (matches doc sel (take _ p)).
  - intros [= <-]. exists 0. split; [lia | reflexivity].
  - discriminate.
  - intros [= <-]. exists (S n). split; [lia | reflexivity].
  - intros H. destruct (IH H) as [m [Hm ->]]. exists m. split; [lia|].
    reflexivity.
Qed.

(** A selector that accepts more finds an element at least as near. *)
Lemma closest_from_weaker (doc : element) (sel sel' : selector) (p r : path)
    (n : nat) :
  (forall e, sel e = true -> sel' e = true) ->
  closest_from doc sel p n = Some r ->
  exists r', closest_from doc sel' p n = Some r' /\ r `prefix_of` r'.
Proof.
  intros Hsel. induction n as [|n IH]; simpl.
  - destruct (matches doc sel (take 0 p)) eqn:Hm; [|discriminate].
    intros [= <-]. unfold matches in *.
    destruct (lookup_element doc (take 0 p)); [|discriminate].
    rewrite (Hsel _ Hm). exists (take 0 p). split; reflexivity.
  - destruct (matches doc sel' (take (S n) p)) eqn:Hm'.
    + intros H. exists (take (S n) p). split; [reflexivity|].
      destruct (closest_from_take doc sel p r (S n) H) as [m [Hm ->]].
      replace (take m p) with (take m (take (S n) p))
        by (rewrite take_take; f_equal; lia).
      apply prefix_take.
    + destruct (matches doc sel (take (S n) p)) eqn:Hm; [|exact IH].
      exfalso. unfold matches in *.
      destruct (lookup_element doc (take (S n) p)); [|discriminate].
      rewrite (Hsel _ Hm) in Hm'. discriminate.
Qed.

(** X6. Whenever the lookup of [toggleFields] finds a row for a field, the
    lookup of [toggleOfferFields] finds one too, and it is that row or an
    element inside it. *)
Theorem offer_lookup_finds_inside_toggle_row (doc : element)
    (inline r : path) (f : string) :
  toggle_field_row doc inline f = Some r ->
  exists r', offer_field_row doc inline f = Some r' /\ r `prefix_of` r'.
Proof.
  unfold toggle_field_row, offer_field_row.
  destruct (querySelector doc (Some inline) (id_ends_with f)) as [x|];
    simpl; [|discriminate].
  intros H. unfold closest in *.
  destruct (closest_from_weaker doc (has_class "form-row")
              (sel_form_row_or_field f) x r (length x)) as [r' [Hr' Hpre]].
  - intros e He. unfold sel_form_row_or_field, sel_or. rewrite He.
    reflexivity.
  - exact H.
  - exists r'. rewrite Hr'. split; [reflexivity | exact Hpre].
Qed.

Lemma offer_lookup_finds_inside_toggle_row_witness :
  exists r', offer_field_row shared_line_doc [0; 0] "hours" = Some r'
             /\ [0; 0; 1] `prefix_of` r'.
Proof.
  apply (offer_lookup_finds_inside_toggle_row shared_line_doc [0; 0]
           [0; 0; 1] "hours" eq_refl).
Defined.

(** The converse fails: boxes marked with the field class and no form row
    are rows for [toggleOfferFields] only. *)
Example offer_lookup_finds_more :
  toggle_field_row boxed_doc [0; 0] "hours" = None /\
  offer_field_row boxed_doc [0; 0] "hours" = Some [0; 0; 1].
Proof. split; vm_compute; reflexivity. Qed.

(** * The values written *)

Lemma last_write_result (row : string -> option path)
    (disp : string -> string) (q : path) (fs : list string)
    (a : option string) :
  foldl (last_write row disp q) a fs = a \/
  exists f, f ∈ fs /\ foldl (last_write row disp q) a fs = Some (disp f).
Proof.
  revert a. induction fs as [|g fs IH]; intros a; simpl; [left; reflexivity|].
  destruct (IH (last_write row disp q a g)) as [H | [f [Hf H]]].
  - rewrite H. unfold last_write.
    destruct (decide (row g = Some q)); [|left; reflexivity].
    right. exists g. split; [left | reflexivity].
  - right. exists f. split; [right; exact Hf | exact H].
Qed.

Lemma offer_display_values (val f : string) :
  offer_display val f = "" \/ offer_display val f = "none".
Proof.
  unfold offer_display.
  repeat match goal with
         | |- context [if ?b then _ else _] => destruct b
         end; auto.
Qed.

Lemma toggle_display_values (val f : string) :
  toggle_display val f = "" \/ toggle_display val f = "none".
Proof.
  unfold toggle_display.
  repeat match goal with
         | |- context [if ?b then _ else _] => destruct b
         end; auto.
Qed.

(** X7. An evaluation leaves the display of an element as it was or sets it
    to the empty string or to "none": it never writes another display
    value, whatever the selector holds.  Both closures. *)
Theorem evaluation_writes_shown_or_hidden (doc : element)
    (inline select q : path) (st : page) :
  (display (toggleOfferFields doc inline select st) q = display st q \/
   display (toggleOfferFields doc inline select st) q = "" \/
   display (toggleOfferFields doc inline select st) q = "none") /\
  (display (toggleFields doc inline select st) q = display st q \/
   display (toggleFields doc inline select st) q = "" \/
   display (toggleFields doc inline select st) q = "none").
Proof.
  split.
  - unfold toggleOfferFields, display.
    rewrite toggleOfferFields_over_writes, write_fields_lookup.
    destruct (last_write_result (offer_field_row doc inline)
                (offer_display (toLowerCase (value st select))) q fields
                (style_display st !! q)) as [-> | [f [_ ->]]];
      [left; reflexivity | right; apply offer_display_values].
  - unfold toggleFields, display.
    rewrite toggleFields_over_writes, write_fields_lookup.
    destruct (last_write_result (toggle_field_row doc inline)
                (toggle_display (value st select)) q fields
                (style_display st !! q)) as [-> | [f [_ ->]]];
      [left; reflexivity | right; apply toggle_display_values].
Qed.

(** * Document order *)

Lemma element_children_ind (P : element -> Prop) :
  (forall t i c cs, Forall P cs -> P (Element t i c cs)) ->
  forall e, P e.
Proof.
  intros H.
  refine (fix IH (e : element) : P e :=
            match e with
            | Element t i c cs =>
                H t i c cs
                  ((fix go (l : list element) : Forall P l :=
                      match l with
                      | [] => @List.Forall_nil _ P
                      | x :: l' => @List.Forall_cons _ P x l' (IH x) (go l')
                      end) cs)
            end).
Qed.

Lemma StronglySorted_filter {A : Type} (R : relation A) (P : A -> Prop)
    `{forall x, Decision (P x)} (l : list A) :
  StronglySorted R l -> StronglySorted R (filter P l).
Proof.
  induction 1 as [|x l Hl IH Hx]; [constructor|].
  rewrite filter_cons. destruct (decide (P x)); [|exact IH].
  constructor; [exact IH|].
  apply Forall_forall. intros y Hy. apply list_elem_of_filter in Hy as [_ Hy].
  rewrite Forall_forall in Hx. apply Hx. exact Hy.
Qed.

(** In the list of a subtree no element comes after an element inside
    it. *)
Lemma subtree_in_order (e : element) :
  StronglySorted (fun pe qe : path * element => ~ qe.1 `prefix_of` pe.1)
                 (subtree e).
Proof.
  induction e as [t i c cs Hcs] using element_children_ind.
  rewrite subtree_forest. simpl. constructor.
  - generalize 0. induction Hcs as [|x l Hx Hl IH]; intros n; simpl;
      [constructor|].
    apply StronglySorted_app_2.
    + intros x1 x2 H1 H2 Hpre.
      apply list_elem_of_fmap in H1 as [[p1 e1] [-> _]].
      destruct x2 as [p2 e2]. simpl in Hpre.
      apply elem_of_forest in H2 as (j & d & q' & -> & _ & _).
      apply prefix_cons_inv_1 in Hpre. lia.
    + eapply StronglySorted_fmap; [|exact Hx].
      intros [p1 e1] [p2 e2] H Hpre. simpl in *. apply H.
      apply (prefix_cons_inv_2 _ _ _ _ Hpre).
    + apply IH.
  - apply Forall_forall. intros [q x] Hq Hpre. simpl in Hpre.
    apply (forest_nonempty _ _ _ Hq). simpl.
    apply prefix_nil_inv. exact Hpre.
Qed.

(** The answers of a query come with an element before the elements inside
    it. *)
Lemma querySelectorAll_in_order (doc : element) (scope : option path)
    (sel : selector) :
  StronglySorted (fun p q : path => ~ q `prefix_of` p)
                 (querySelectorAll doc scope sel).
Proof.
  assert (Hm : forall l,
    StronglySorted (fun pe qe : path * element => ~ qe.1 `prefix_of` pe.1) l ->
    StronglySorted (fun p q : path => ~ q `prefix_of` p) (matching sel l)).
  { intros l Hl. unfold matching.
    eapply StronglySorted_fmap; [|apply StronglySorted_filter; exact Hl].
    intros x y H. exact H. }
  unfold querySelectorAll. destruct scope as [p|].
  - destruct (lookup_element doc p) as [e|]; [|constructor].
    eapply StronglySorted_fmap; [|apply Hm].
    + intros x y H Hpre. apply H. apply (prefix_app_inv p). exact Hpre.
    +  unfold descendants.
      pose proof (subtree_in_order e) as He.
      rewrite subtree_forest in *. simpl.
      apply StronglySorted_cons in He as [_ He]. exact He.
  - apply Hm. apply subtree_in_order.
Qed.

(** What a later answer of a query is to an earlier one: an element inside
    it, or an element apart from it. *)
Lemma querySelectorAll_later (doc : element) (scope : option path)
    (sel : selector) (l1 l2 : list path) (c d : path) :
  querySelectorAll doc scope sel = l1 ++ c :: l2 ->
  d ∈ l2 ->
  ~ d `prefix_of` c.
Proof.
  intros Hl Hd. pose proof (querySelectorAll_in_order doc scope sel) as H.
  rewrite Hl in H. apply StronglySorted_app_1_r in H.
  apply StronglySorted_cons in H as [H _].
  rewrite Forall_forall in H. apply H. exact Hd.
Qed.

Section OwnForm.
Variable row : path -> string -> option path.
Variable disp : string -> string -> string.
Variable norm : string -> string.
Variable mk : path -> path -> listener.
Variable doc : element.
Hypothesis row_reached : forall a f r, row a f = Some r -> reached_from a r.

Lemma visits_own_form (scope : option path) (sel : selector)
    (c s r : path) (f : string) (st : page) :
  c ∈ querySelectorAll doc scope sel ->
  querySelector doc (Some c) sel_offer_type = Some s ->
  (forall d, d ∈ querySelectorAll doc scope sel -> d <> c ->
     c `prefix_of` d -> querySelector doc (Some d) sel_offer_type = None) ->
  NoDup (omap (row c) fields) ->
  f ∈ fields ->
  row c f = Some r ->
  c `prefix_of` r ->
  let st' :=
    foldl (visit_inline row disp norm mk doc) st
          (querySelectorAll doc scope sel) in
  (s, mk c s) ∈ change_listeners st' /\
  display st' r = disp (norm (value st s)) f.
Proof.
  intros Hc Hs Hin Hnd Hf Hr Hcr.
  destruct (list_elem_of_split _ _ Hc) as (l1 & l2 & Hl). rewrite Hl.
  apply (visits_discovered row disp norm mk doc l1 l2 c s r f st Hs Hnd Hf Hr).
  intros d Hd.
  pose proof (querySelectorAll_later doc scope sel l1 l2 c d Hl Hd) as Hdc.
  destruct (decide (c `prefix_of` d)) as [Hcd|Hcd].
  - left. apply Hin; [| | exact Hcd].
    + rewrite Hl. apply elem_of_app. right. right. exact Hd.
    + intros ->. apply Hdc. reflexivity.
  - right. intros g _ Hg.
    apply (not_reached_apart d c r Hdc Hcd Hcr). apply (row_reached _ _ _ Hg).
Qed.
End OwnForm.

(** X8. After either initialization, a matched container in which a
    selector is found has its closure registered on that selector, and each
    of its rows that lies inside it shows what the closure assigns for the
    selector's current value, when its rows are pairwise distinct elements
    and no matched container inside it has a selector.  Matched containers
    around it (the inline group of the first variant) do not matter: they
    are visited before it. *)
Theorem initialization_evaluates_own_form (doc : element)
    (context : option path) (c s r : path) (f : string) (st : page) :
  querySelector doc (Some c) sel_offer_type = Some s ->
  f ∈ fields ->
  c `prefix_of` r ->
  (c ∈ querySelectorAll doc context sel_inline_or_group ->
   (forall d, d ∈ querySelectorAll doc context sel_inline_or_group ->
      d <> c -> c `prefix_of` d ->
      querySelector doc (Some d) sel_offer_type = None) ->
   NoDup (omap (offer_field_row doc c) fields) ->
   offer_field_row doc c f = Some r ->
   (s, ToggleOfferFields c s)
     ∈ change_listeners (initOfferTypeFields doc context st) /\
   display (initOfferTypeFields doc context st) r
   = offer_display (toLowerCase (value st s)) f) /\
  (c ∈ querySelectorAll doc context sel_inline_related ->
   (forall d, d ∈ querySelectorAll doc context sel_inline_related ->
      d <> c -> c `prefix_of` d ->
      querySelector doc (Some d) sel_offer_type = None) ->
   NoDup (omap (toggle_field_row doc c) fields) ->
   toggle_field_row doc c f = Some r ->
   (s, ToggleFields c s)
     ∈ change_listeners (initOfferTypeToggles doc context st) /\
   display (initOfferTypeToggles doc context st) r
   = toggle_display (value st s) f).
Proof.
  intros Hs Hf Hcr. split; intros Hc Hin Hnd Hr.
  - apply (visits_own_form (offer_field_row doc) offer_display toLowerCase
             ToggleOfferFields doc
             (fun a g x => offer_field_row_reached doc a x g)
             context sel_inline_or_group c s r f st); assumption.
  - apply (visits_own_form (toggle_field_row doc) toggle_display
             (fun v => v) ToggleFields doc
             (fun a g x => toggle_field_row_reached doc a x g)
             context sel_inline_related c s r f st); assumption.
Qed.

Lemma initialization_evaluates_own_form_witness :
  display (initOfferTypeFields two_forms_doc None
             (set_value [0; 0; 0; 0; 0] "course"
                (set_value [0; 0; 1; 0; 0] "lesson" empty_page)))
          [0; 0; 1; 2]
  = "none"
  /\ display (initOfferTypeToggles two_forms_doc None
               (set_value [0; 0; 0; 0; 0] "course"
                  (set_value [0; 0; 1; 0; 0] "lesson" empty_page)))
            [0; 0; 1; 2]
     = "none".
Proof.
  destruct (initialization_evaluates_own_form two_forms_doc None [0; 0; 1]
              [0; 0; 1; 0; 0] [0; 0; 1; 2] "classes"
              (set_value [0; 0; 0; 0; 0] "course"
                 (set_value [0; 0; 1; 0; 0] "lesson" empty_page))
              eq_refl ltac:(by_eval) ltac:(by_eval)) as [H1 H2].
  split.
  - refine (proj2 (H1 ltac:(by_eval) _ ltac:(by_eval) eq_refl)).
    intros d Hd Hne Hpre. exfalso. revert d Hd Hne Hpre.
    apply (Forall_forall
             (fun d => d <> [0; 0; 1] -> [0; 0; 1] `prefix_of` d -> False)).
    by_eval.
  - refine (proj2 (H2 ltac:(by_eval) _ ltac:(by_eval) eq_refl)).
    intros d Hd Hne Hpre. exfalso. revert d Hd Hne Hpre.
    apply (Forall_forall
             (fun d => d <> [0; 0; 1] -> [0; 0; 1] `prefix_of` d -> False)).
    by_eval.
Defined.

(** * The class lists of the header *)

Lemma includes_elem_of (l : list string) (c : string) :
  includes l c = true <-> c ∈ l.
Proof.
  unfold includes. rewrite existsb_exists. split.
  - intros [x [Hx Heq]]. apply String.eqb_eq in Heq. subst x.
    apply list_elem_of_In. exact Hx.
  - intros H. exists c. split; [apply list_elem_of_In; exact H|].
    apply String.eqb_refl.
Qed.

Lemma classList_add_eq (doc : element) (p : path) (c x : string)
    (st : header_page) :
  x ∈ classList doc (classList_add doc p c st) p
  <-> x = c \/ x ∈ classList doc st p.
Proof.
  unfold classList_add. unfold classList at 1. simpl.
  rewrite lookup_insert_eq.
  destruct (includes (classList doc st p) c) eqn:Hc.
  - apply includes_elem_of in Hc. split; [auto | intros [->|H]; assumption].
  - rewrite elem_of_app, list_elem_of_singleton. tauto.
Qed.


Lemma classList_add_ne (doc : element) (p q : path) (c : string)
    (st : header_page) :
  p <> q ->
  classList doc (classList_add doc p c st) q = classList doc st q.
Proof.
  intros Hpq. unfold classList_add, classList. simpl.
  rewrite lookup_insert_ne by exact Hpq. reflexivity.
Qed.

Lemma classList_remove_eq (doc : element) (p : path) (c : string)
    (st : header_page) :
  classList doc (classList_remove doc p c st) p
  = filter (fun x => x <> c) (classList doc st p).
Proof.
  unfold classList_remove. unfold classList at 1. simpl.
  rewrite lookup_insert_eq. reflexivity.
Qed.

Lemma classList_remove_ne (doc : element) (p q : path) (c : string)
    (st : header_page) :
  p <> q ->
  classList doc (classList_remove doc p c st) q = classList doc st q.
Proof.
  intros Hpq. unfold classList_remove, classList. simpl.
  rewrite lookup_insert_ne by exact Hpq. reflexivity.
Qed.



(** * The drawer *)



(** * The submenu *)

(** X10. A click on the submenu toggle leaves [aria-expanded] at "true" with
    the list shown, or at "false" with the list hidden; it expands unless
    the attribute was exactly "true" (so also when the attribute is absent
    or holds anything else), and two further clicks come back to the same
    state. *)
Theorem subToggle_click_alternates (t sl : path) (st : nav_page) :
  let st1 := subToggle_click t sl st in
  (aria_expanded st1 !! t = Some "true" /\ is_hidden st1 sl = false \/
   aria_expanded st1 !! t = Some "false" /\ is_hidden st1 sl = true) /\
  (aria_expanded st1 !! t = Some "true"
   <-> aria_expanded st !! t <> Some "true") /\
  subToggle_click t sl (subToggle_click t sl st1) = st1.
Proof.
  cbv zeta. unfold subToggle_click, is_hidden. simpl.
  rewrite !lookup_insert_eq. simpl.
  destruct (decide (aria_expanded st !! t = Some "true")) as [He|He].
  - rewrite (bool_decide_eq_true_2 _ He). simpl. repeat split.
    + right. split; reflexivity.
    + discriminate.
    + intros H. contradiction.
    + rewrite !insert_insert_eq. reflexivity.
  - rewrite (bool_decide_eq_false_2 _ He). simpl. repeat split.
    + left. split; reflexivity.
    + intros _. exact He.
    + rewrite !insert_insert_eq. reflexivity.
Qed.

(** * Clicks *)

(** With a body, a drawer listener throws exactly when there is no
    drawer. *)
Lemma run_click_listener_outcome (doc : element) (refs : drawer_refs)
    (b : path) (l : click_listener) (st : header_page) :
  document_body doc = Some b ->
  match mobileDrawer refs with
  | None => run_click_listener doc refs l st = Throw TypeError st
  | Some _ => exists st', run_click_listener doc refs l st = Ok st'
  end.
Proof.
  intros Hb. destruct l; simpl; unfold openDrawer, closeDrawer; rewrite Hb;
    destruct (mobileDrawer refs); eauto.
Qed.

Lemma click_errors (doc : element) (refs : drawer_refs) (b target : path)
    (ls : list (path * click_listener)) (acc : header_page * list error) :
  document_body doc = Some b ->
  (foldl (fun acc tl =>
            if decide (tl.1 = target) then
              match run_click_listener doc refs tl.2 acc.1 with
              | Ok st' => (st', acc.2)
              | Throw e st' => (st', acc.2 ++ [e])
              end
            else acc) acc ls).2
  = acc.2
    ++ match mobileDrawer refs with
       | None => (fun _ => TypeError) <$> filter (fun tl => tl.1 = target) ls
       | Some _ => []
       end.
Proof.
  intros Hb. revert acc. induction ls as [|tl ls IH]; intros acc; simpl.
  - destruct (mobileDrawer refs); rewrite ?filter_nil; simpl;
      rewrite app_nil_r; reflexivity.
  - rewrite IH. rewrite filter_cons.
    destruct (decide (tl.1 = target)) as [Ht|Ht]; [|reflexivity].
    pose proof (run_click_listener_outcome doc refs b tl.2 acc.1 Hb) as Hrun.
    destruct (mobileDrawer refs) as [d|].
    + destruct Hrun as [st' ->]. reflexivity.
    + rewrite Hrun. simpl. rewrite <- app_assoc. reflexivity.
Qed.

Lemma header_onDOMContentLoaded_listeners (doc : element)
    (st : header_page) (x : path * click_listener) :
  click_listeners st = [] ->
  x ∈ click_listeners (header_onDOMContentLoaded doc st) <->
  (x.2 = OpenDrawer /\ headerToggle (header_refs doc) = Some x.1 /\
   mobileDrawer (header_refs doc) <> None) \/
  (x.2 = CloseDrawer /\
   (overlay (header_refs doc) = Some x.1 \/
    closeBtn (header_refs doc) = Some x.1)).
Proof.
  intros Hst. unfold header_onDOMContentLoaded.
  destruct (header_refs doc) as [ht md ov cb]. simpl.
  destruct x as [t l]. simpl.
  destruct cb as [c|]; destruct ov as [o|]; destruct ht as [h|];
    destruct md as [d|];
    rewrite ?elem_of_add_click_listener, Hst, elem_of_nil;
    split; intros H; intuition (try discriminate; try congruence);
    repeat match goal with
           | H : (_, _) = (_, _) |- _ => injection H as -> ->
           | H : Some _ = Some _ |- _ => injection H as ->
           | H : _ = OpenDrawer |- _ => subst l
           | H : _ = CloseDrawer |- _ => subst l
           end; auto.
Qed.

(** X11. With a body and starting from no listener, after DOMContentLoaded a
    click on an element reports an uncaught error exactly when the page has
    no drawer and the element is the overlay or the close button: the
    listener of the header toggle, registered only when the drawer exists,
    never throws. *)
Theorem click_fails_only_without_drawer (doc : element) (st : header_page)
    (b t : path) :
  click_listeners st = [] ->
  document_body doc = Some b ->
  (click doc (header_refs doc) t (header_onDOMContentLoaded doc st)).2 <> []
  <-> mobileDrawer (header_refs doc) = None /\
      (overlay (header_refs doc) = Some t \/
       closeBtn (header_refs doc) = Some t).
Proof.
  intros Hst Hb. unfold click. rewrite (click_errors doc _ b t _ _ Hb).
  cbn [snd]. rewrite app_nil_l.
  destruct (mobileDrawer (header_refs doc)) as [d|] eqn:Hd.
  - split; [intros H; exfalso; apply H; reflexivity
           | intros [H _]; discriminate].
  - split.
    + intros H. split; [reflexivity|].
      destruct (filter (fun tl => tl.1 = t)
                  (click_listeners (header_onDOMContentLoaded doc st)))
        as [|[t' l] ls] eqn:Hf; [contradiction|].
      assert (Hin : (t', l) ∈ filter (fun tl => tl.1 = t)
                      (click_listeners (header_onDOMContentLoaded doc st)))
        by (rewrite Hf; left).
      apply list_elem_of_filter in Hin as [Ht Hin]. simpl in Ht. subst t'.
      apply (header_onDOMContentLoaded_listeners doc st _ Hst) in Hin.
      cbn [fst snd] in Hin. destruct Hin as [(_ & _ & Hm) | [_ H']];
        [exfalso; apply Hm; exact Hd | exact H'].
    + intros [_ H].
      assert (Hin : (t, CloseDrawer)
                    ∈ click_listeners (header_onDOMContentLoaded doc st)).
      { apply (header_onDOMContentLoaded_listeners doc st _ Hst). right.
        split; [reflexivity | exact H]. }
      assert (Hf : (t, CloseDrawer)
                   ∈ filter (fun tl => tl.1 = t)
                       (click_listeners (header_onDOMContentLoaded doc st)))
        by (apply list_elem_of_filter; split; [reflexivity | exact Hin]).
      destruct (filter (fun tl => tl.1 = t)
                  (click_listeners (header_onDOMContentLoaded doc st)));
        [inversion Hf | discriminate].
Qed.

Lemma click_fails_only_without_drawer_witness :
  (click full_header_doc (header_refs full_header_doc) [0; 0; 0]
     (header_onDOMContentLoaded full_header_doc empty_header_page)).2 = []
  /\ (click no_drawer_doc (header_refs no_drawer_doc) [0; 0; 2]
        (header_onDOMContentLoaded no_drawer_doc empty_header_page)).2 <> [].
Proof.
  split.
  - destruct (decide ((click full_header_doc (header_refs full_header_doc)
                         [0; 0; 0]
                         (header_onDOMContentLoaded full_header_doc
                            empty_header_page)).2 = [])) as [H|H];
      [exact H|].
    apply (click_fails_only_without_drawer full_header_doc
             empty_header_page [0] [0; 0; 0] eq_refl eq_refl) in H
      as [H _].
    discriminate H.
  - apply (click_fails_only_without_drawer no_drawer_doc empty_header_page
             [0] [0; 0; 2] eq_refl eq_refl).
    split; [reflexivity | right; reflexivity].
Defined.

(** * The sports dropdown *)

Lemma run_nav_listener_listeners (doc : element) (target : path)
    (l : nav_listener) (st : nav_page) :
  nav_listeners (run_nav_listener doc target l st) = nav_listeners st.
Proof.
  destruct l as [t sl|dd|n dd]; simpl; [reflexivity..|].
  unfold outside_click. destruct (bool_decide (n `prefix_of` target));
    reflexivity.
Qed.

Section NavSteps.
Variable doc : element.
Variable target : path.

Local Abbreviation nav_step :=
  (fun (on : option path) (st : nav_page) (ol : option path * nav_listener) =>
     if decide (ol.1 = on) then run_nav_listener doc target ol.2 st else st).

Lemma nav_steps_listeners (on : option path)
    (ls : list (option path * nav_listener)) (st : nav_page) :
  nav_listeners (foldl (nav_step on) st ls) = nav_listeners st.
Proof.
  revert st. induction ls as [|ol ls IH]; intros st; simpl; [reflexivity|].
  rewrite IH. destruct (decide (ol.1 = on)); [|reflexivity].
  apply run_nav_listener_listeners.
Qed.

Lemma nav_steps_skip (on : option path)
    (ls : list (option path * nav_listener)) (st : nav_page) :
  (forall ol, ol ∈ ls -> ol.1 <> on) -> foldl (nav_step on) st ls = st.
Proof.
  revert st. induction ls as [|ol ls IH]; intros st H; simpl; [reflexivity|].
  rewrite decide_False by (apply H; left).
  apply IH. intros ol' Hol'. apply H. right. exact Hol'.
Qed.

(** The listeners of the submenu toggle leave the class lists alone. *)
Lemma nav_steps_sub_toggles (on : option path)
    (ls : list (option path * nav_listener)) (st : nav_page) :
  (forall ol, ol ∈ ls -> exists t sl, ol.2 = SubToggleClick t sl) ->
  drawer_page (foldl (nav_step on) st ls) = drawer_page st.
Proof.
  revert st. induction ls as [|ol ls IH]; intros st H; simpl; [reflexivity|].
  rewrite IH by (intros ol' Hol'; apply H; right; exact Hol').
  destruct (decide (ol.1 = on)); [|reflexivity].
  destruct (H ol ltac:(left)) as (t & sl & ->). reflexivity.
Qed.

Lemma nav_click_on_listeners (on : option path)
    (acc : nav_page * list error) :
  nav_listeners (nav_click_on doc target on acc).1 = nav_listeners acc.1.
Proof.
  unfold nav_click_on. cbn [fst]. rewrite nav_steps_listeners.
  destruct on; reflexivity.
Qed.

Lemma nav_clicks_listeners (ons : list (option path))
    (acc : nav_page * list error) :
  nav_listeners
    (foldl (fun acc on => nav_click_on doc target on acc) acc ons).1
  = nav_listeners acc.1.
Proof.
  revert acc. induction ons as [|on ons IH]; intros acc; simpl;
    [reflexivity|].
  rewrite IH. apply nav_click_on_listeners.
Qed.
End NavSteps.

(** The listeners the handler registers on a page that has none. *)
Lemma nav_onDOMContentLoaded_listeners (doc : element) (st : nav_page)
    (n k dd : path) :
  nav_listeners st = [] ->
  sportsNavItem (header_nav_refs doc) = Some n ->
  sportsLink (header_nav_refs doc) = Some k ->
  dropdown (header_nav_refs doc) = Some dd ->
  exists ls,
    nav_listeners (nav_onDOMContentLoaded doc st)
    = ls ++ [(Some k, SportsLinkClick dd); (None, OutsideClick n dd)] /\
    forall ol, ol ∈ ls ->
      (exists a, ol.1 = Some a) /\ exists t sl, ol.2 = SubToggleClick t sl.
Proof.
  intros Hst Hn Hk Hdd. unfold nav_onDOMContentLoaded.
  rewrite Hn, Hk, Hdd.
  destruct (subToggle (header_nav_refs doc)) as [t|];
    [destruct (subList (header_nav_refs doc)) as [sl|]|]; simpl; rewrite Hst.
  - exists [(Some t, SubToggleClick t sl)]. split; [reflexivity|].
    intros ol Hol. apply list_elem_of_singleton in Hol as ->. simpl. eauto.
  - exists []. split; [reflexivity | intros ol Hol; inversion Hol].
  - exists []. split; [reflexivity | intros ol Hol; inversion Hol].
Qed.

(** X12. Once the handler has registered its listeners, a click on an
    element that is not the sports item nor inside it leaves the dropdown
    without "is-open", whatever else the click did: the listener of the
    document runs last. *)
Theorem click_outside_closes_dropdown (doc : element) (st : nav_page)
    (t n k dd : path) :
  nav_listeners st
  = nav_listeners (nav_onDOMContentLoaded doc empty_nav_page) ->
  sportsNavItem (header_nav_refs doc) = Some n ->
  sportsLink (header_nav_refs doc) = Some k ->
  dropdown (header_nav_refs doc) = Some dd ->
  ~ n `prefix_of` t ->
  "is-open" ∉ classList doc (drawer_page (nav_click doc t st).1) dd.
Proof.
  intros Hst Hn Hk Hdd Ht.
  destruct (nav_onDOMContentLoaded_listeners doc empty_nav_page n k dd
              eq_refl Hn Hk Hdd) as (ls & Hls & Hsub).
  rewrite Hls in Hst. clear Hls.
  unfold nav_click. rewrite foldl_app. simpl.
  set (acc := foldl (fun acc on => nav_click_on doc t on acc) (st, [])
                    (Some <$> ancestors_or_self t)).
  assert (Hacc : nav_listeners acc.1
                 = ls ++ [(Some k, SportsLinkClick dd);
                          (None, OutsideClick n dd)]).
  { unfold acc. rewrite nav_clicks_listeners. exact Hst. }
  unfold nav_click_on. cbn [fst snd]. rewrite Hacc, foldl_app.
  rewrite (nav_steps_skip doc t None ls).
  2:{ intros ol Hol. destruct (Hsub ol Hol) as [[a ->] _]. discriminate. }
  simpl. unfold outside_click.
  rewrite bool_decide_eq_false_2 by exact Ht. simpl.
  rewrite classList_remove_eq. intros H.
  apply list_elem_of_filter in H as [H _]. apply H. reflexivity.
Qed.

Lemma click_outside_closes_dropdown_witness :
  "is-open"
  ∉ classList full_header_doc
      (drawer_page
         (nav_click full_header_doc [0; 0; 0]
            (nav_click full_header_doc [0; 0; 4; 0]
               (nav_onDOMContentLoaded full_header_doc empty_nav_page)).1).1)
      [0; 0; 4; 1].
Proof.
  apply (click_outside_closes_dropdown full_header_doc _ [0; 0; 0]
           [0; 0; 4] [0; 0; 4; 0] [0; 0; 4; 1]);
    [vm_compute; reflexivity | reflexivity | reflexivity | reflexivity
    | by_eval].
Defined.

Lemma classList_add_other (doc : element) (p q : path) (c x : string)
    (st : header_page) :
  p <> q \/ x <> c ->
  x ∈ classList doc (classList_add doc p c st) q <-> x ∈ classList doc st q.
Proof.
  intros H. destruct (decide (p = q)) as [->|Hpq].
  - destruct H as [H|H]; [contradiction|].
    rewrite classList_add_eq. split; [intros [?|?]; [contradiction|]|]; auto.
  - rewrite classList_add_ne by exact Hpq. reflexivity.
Qed.

Lemma classList_remove_other (doc : element) (p q : path) (c x : string)
    (st : header_page) :
  p <> q \/ x <> c ->
  x ∈ classList doc (classList_remove doc p c st) q
  <-> x ∈ classList doc st q.
Proof.
  intros H. destruct (decide (p = q)) as [->|Hpq].
  - destruct H as [H|H]; [contradiction|].
    rewrite classList_remove_eq, list_elem_of_filter. tauto.
  - rewrite classList_remove_ne by exact Hpq. reflexivity.
Qed.

Lemma classList_toggle_flips (doc : element) (p : path) (c : string)
    (st : header_page) :
  c ∈ classList doc (classList_toggle doc p c st) p
  <-> c ∉ classList doc st p.
Proof.
  unfold classList_toggle.
  destruct (includes (classList doc st p) c) eqn:Hc.
  - apply includes_elem_of in Hc. rewrite classList_remove_eq.
    rewrite list_elem_of_filter. tauto.
  - assert (Hn : c ∉ classList doc st p).
    { intros H. apply includes_elem_of in H. congruence. }
    rewrite classList_add_eq. tauto.
Qed.

(** The drawer listeners do not open or close an element that is not the
    drawer. *)
Lemma click_keeps_open (doc : element) (refs : drawer_refs) (a dd : path)
    (st : header_page) :
  mobileDrawer refs <> Some dd ->
  "is-open" ∈ classList doc (click doc refs a st).1 dd
  <-> "is-open" ∈ classList doc st dd.
Proof.
  intros Hdd. unfold click.
  generalize (click_listeners st). intros ls.
  change st with ((st, @nil error).1) at 2.
  generalize (st, @nil error). clear st.
  induction ls as [|[t l] ls IH]; intros acc; simpl; [reflexivity|].
  rewrite IH. destruct (decide (t = a)); [|reflexivity].
  destruct l; simpl; unfold openDrawer, closeDrawer;
    destruct (mobileDrawer refs) as [d|]; try reflexivity;
    (assert (Hne : d <> dd) by congruence);
    destruct (document_body doc) as [b|]; simpl;
    rewrite ?classList_add_other, ?classList_remove_other
      by (auto || (right; discriminate));
    reflexivity.
Qed.

Lemma NoDup_ancestors_or_self (t : path) : NoDup (ancestors_or_self t).
Proof.
  unfold ancestors_or_self. apply NoDup_fmap_2_strong.
  - intros n m Hn Hm Heq.
    apply elem_of_reverse, elem_of_seq in Hn, Hm.
    apply (f_equal length) in Heq. rewrite !length_take in Heq. lia.
  - rewrite reverse_Permutation. apply NoDup_seq.
Qed.

Lemma elem_of_ancestors_or_self (t k : path) :
  k `prefix_of` t -> k ∈ ancestors_or_self t.
Proof.
  intros [r ->]. unfold ancestors_or_self. apply list_elem_of_fmap.
  exists (length k). split; [rewrite take_app_length; reflexivity|].
  apply elem_of_reverse, elem_of_seq. rewrite length_app. lia.
Qed.

Section LinkClick.
Variable doc : element.
Variable t n k dd : path.
Variable ls : list (option path * nav_listener).
Hypothesis ls_sub : forall ol, ol ∈ ls ->
  (exists a, ol.1 = Some a) /\ exists ts sl, ol.2 = SubToggleClick ts sl.
Hypothesis not_drawer : mobileDrawer (header_refs doc) <> Some dd.

Local Abbreviation registered_nav :=
  (ls ++ [(Some k, SportsLinkClick dd); (None, OutsideClick n dd)]).
Local Abbreviation is_open st :=
  ("is-open" ∈ classList doc (drawer_page st) dd).

Lemma nav_click_on_element (a : path) (acc : nav_page * list error) :
  nav_listeners acc.1 = registered_nav ->
  is_open (nav_click_on doc t (Some a) acc).1
  <-> if decide (a = k) then ~ is_open acc.1 else is_open acc.1.
Proof.
  intros Hacc. unfold nav_click_on. cbn [fst snd].
  unfold with_drawer_page at 2. cbn [nav_listeners]. rewrite Hacc, foldl_app.
  set (s0 := with_drawer_page
               (click doc (header_refs doc) a (drawer_page acc.1)).1 acc.1).
  set (s1 := foldl _ s0 ls).
  assert (H1 : drawer_page s1 = drawer_page s0).
  { apply nav_steps_sub_toggles. intros ol Hol. apply (ls_sub ol Hol). }
  assert (H0 : is_open s0 <-> is_open acc.1)
    by (apply click_keeps_open; exact not_drawer).
  simpl. destruct (decide (Some k = Some a)) as [[= ->]|Hne].
  - rewrite decide_True by reflexivity. simpl.
    rewrite classList_toggle_flips, H1, H0. reflexivity.
  - rewrite decide_False by congruence. rewrite H1. exact H0.
Qed.

Lemma nav_click_on_ancestors (l : list path) (acc : nav_page * list error) :
  NoDup l ->
  nav_listeners acc.1 = registered_nav ->
  is_open (foldl (fun acc on => nav_click_on doc t on acc) acc (Some <$> l)).1
  <-> if decide (k ∈ l) then ~ is_open acc.1 else is_open acc.1.
Proof.
  revert acc. induction l as [|a l IH]; intros acc Hnd Hacc.
  - simpl. reflexivity.
  - apply NoDup_cons in Hnd as [Ha Hnd]. rewrite fmap_cons. cbn [foldl].
    rewrite IH; [|exact Hnd|rewrite nav_click_on_listeners; exact Hacc].
    pose proof (nav_click_on_element a acc Hacc) as Hstep.
    destruct (decide (a = k)) as [->|Hak].
    + rewrite decide_False by exact Ha.
      rewrite decide_True by (left). exact Hstep.
    + destruct (decide (k ∈ l)) as [Hk|Hk].
      * rewrite decide_True by (right; exact Hk). rewrite Hstep.
        reflexivity.
      * rewrite decide_False; [exact Hstep|].
        intros H. apply elem_of_cons in H as [H|H]; [congruence|].
        exact (Hk H).
Qed.

Lemma nav_click_link :
  forall st, nav_listeners st = registered_nav ->
  n `prefix_of` t -> k `prefix_of` t ->
  is_open (nav_click doc t st).1 <-> ~ is_open st.
Proof.
  intros st Hst Hn Hk. unfold nav_click. rewrite foldl_app. simpl.
  set (acc := foldl (fun acc on => nav_click_on doc t on acc) (st, [])
                    (Some <$> ancestors_or_self t)).
  assert (Hacc : nav_listeners acc.1 = registered_nav)
    by (unfold acc; rewrite nav_clicks_listeners; exact Hst).
  assert (Hopen : is_open acc.1 <-> ~ is_open st).
  { unfold acc.
    rewrite (nav_click_on_ancestors (ancestors_or_self t) (st, [])
               (NoDup_ancestors_or_self t) Hst).
    rewrite decide_True by (apply elem_of_ancestors_or_self; exact Hk).
    reflexivity. }
  unfold nav_click_on. cbn [fst snd]. rewrite Hacc, foldl_app.
  rewrite (nav_steps_skip doc t None ls).
  2:{ intros ol Hol. destruct (ls_sub ol Hol) as [[a ->] _]. discriminate. }
  simpl. unfold outside_click.
  rewrite bool_decide_eq_true_2 by exact Hn. exact Hopen.
Qed.
End LinkClick.

(** X13. Once the handler has registered its listeners, a click on the
    sports link, or on an element inside it, flips "is-open" on the
    dropdown, provided the dropdown is not the drawer: the link's listener
    toggles the class once, and the listener of the document, which the
    same click reaches, does not take it away since the link is inside the
    sports item. *)
Theorem link_click_toggles_dropdown (doc : element) (st : nav_page)
    (t n k dd : path) :
  nav_listeners st
  = nav_listeners (nav_onDOMContentLoaded doc empty_nav_page) ->
  sportsNavItem (header_nav_refs doc) = Some n ->
  sportsLink (header_nav_refs doc) = Some k ->
  dropdown (header_nav_refs doc) = Some dd ->
  mobileDrawer (header_refs doc) <> Some dd ->
  k `prefix_of` t ->
  "is-open" ∈ classList doc (drawer_page (nav_click doc t st).1) dd
  <-> "is-open" ∉ classList doc (drawer_page st) dd.
Proof.
  intros Hst Hn Hk Hdd Hdrawer Ht.
  destruct (nav_onDOMContentLoaded_listeners doc empty_nav_page n k dd
              eq_refl Hn Hk Hdd) as (ls & Hls & Hsub).
  rewrite Hls in Hst.
  apply (nav_click_link doc t n k dd ls Hsub Hdrawer st Hst); [|exact Ht].
  transitivity k; [|exact Ht].
  unfold header_nav_refs in Hn, Hk. simpl in Hn, Hk. rewrite Hn in Hk.
  simpl in Hk. apply querySelector_below in Hk as [q [_ ->]].
  apply prefix_app_r. reflexivity.
Qed.

Lemma link_click_toggles_dropdown_witness :
  "is-open"
  ∈ classList full_header_doc
      (drawer_page
         (nav_click full_header_doc [0; 0; 4; 0]
            (nav_onDOMContentLoaded full_header_doc empty_nav_page)).1)
      [0; 0; 4; 1].
Proof.
  apply (link_click_toggles_dropdown full_header_doc
           (nav_onDOMContentLoaded full_header_doc empty_nav_page)
           [0; 0; 4; 0] [0; 0; 4] [0; 0; 4; 0] [0; 0; 4; 1]
           eq_refl eq_refl eq_refl eq_refl); by_eval.
Defined.

(** * The submenu under clicks *)

Lemma ancestors_or_self_prefix (t a : path) :
  a ∈ ancestors_or_self t -> a `prefix_of` t.
Proof.
  unfold ancestors_or_self. intros H.
  apply list_elem_of_fmap in H as [m [-> _]]. apply prefix_take.
Qed.

Lemma run_nav_listener_attributes (doc : element) (target : path)
    (l : nav_listener) (st : nav_page) :
  (forall ts sl, l <> SubToggleClick ts sl) ->
  aria_expanded (run_nav_listener doc target l st) = aria_expanded st /\
  hidden (run_nav_listener doc target l st) = hidden st.
Proof.
  intros Hl. destruct l as [ts sl|dd|n dd]; simpl.
  - exfalso. apply (Hl ts sl). reflexivity.
  - split; reflexivity.
  - unfold outside_click. destruct (bool_decide (n `prefix_of` target));
      split; reflexivity.
Qed.

Lemma nav_click_on_attributes (doc : element) (target : path)
    (on : option path) (acc : nav_page * list error) :
  (forall ol, ol ∈ nav_listeners acc.1 -> ol.1 = on ->
     forall ts sl, ol.2 <> SubToggleClick ts sl) ->
  aria_expanded (nav_click_on doc target on acc).1 = aria_expanded acc.1 /\
  hidden (nav_click_on doc target on acc).1 = hidden acc.1.
Proof.
  unfold nav_click_on. cbn [fst snd].
  set (s0 := match on with
             | Some a =>
                 (with_drawer_page
                    (click doc (header_refs doc) a (drawer_page acc.1)).1
                    acc.1,
                  acc.2 ++ (click doc (header_refs doc) a
                              (drawer_page acc.1)).2)
             | None => acc
             end).
  assert (Hs0 : aria_expanded s0.1 = aria_expanded acc.1 /\
                hidden s0.1 = hidden acc.1 /\
                nav_listeners s0.1 = nav_listeners acc.1)
    by (unfold s0; destruct on; repeat split; reflexivity).
  destruct Hs0 as (Ha & Hh & Hl). rewrite Hl, <- Ha, <- Hh.
  generalize (s0.1). generalize (nav_listeners acc.1).
  intros ls. induction ls as [|ol ls IH]; intros st H; simpl;
    [split; reflexivity|].
  destruct (IH (if decide (ol.1 = on)
                then run_nav_listener doc target ol.2 st else st)
               ltac:(intros ol' Hol'; apply H; right; exact Hol'))
    as [-> ->].
  destruct (decide (ol.1 = on)) as [Hon|_]; [|split; reflexivity].
  apply run_nav_listener_attributes. apply (H ol ltac:(left) Hon).
Qed.

Lemma nav_onDOMContentLoaded_sub_toggle (doc : element)
    (ol : option path * nav_listener) (ts sl : path) :
  ol ∈ nav_listeners (nav_onDOMContentLoaded doc empty_nav_page) ->
  ol.2 = SubToggleClick ts sl ->
  ol.1 = Some ts /\ subToggle (header_nav_refs doc) = Some ts.
Proof.
  unfold nav_onDOMContentLoaded.
  destruct (subToggle (header_nav_refs doc)) as [t|];
    [destruct (subList (header_nav_refs doc)) as [l|]|];
    destruct (sportsNavItem (header_nav_refs doc)) as [n|];
    try (destruct (sportsLink (header_nav_refs doc)) as [k|]);
    try (destruct (dropdown (header_nav_refs doc)) as [dd|]);
    simpl; intros Hin Heq;
    repeat (apply elem_of_cons in Hin as [-> | Hin]; simpl in Heq;
            [try discriminate; injection Heq as -> ->; auto|]);
    inversion Hin.
Qed.

(** X14. Once the handler has registered its listeners, a click on an
    element that is not the submenu toggle nor inside it changes no
    [aria-expanded] attribute and no [hidden] property. *)
Theorem click_elsewhere_keeps_submenu (doc : element) (st : nav_page)
    (t : path) :
  nav_listeners st
  = nav_listeners (nav_onDOMContentLoaded doc empty_nav_page) ->
  (forall ts, subToggle (header_nav_refs doc) = Some ts ->
     ~ ts `prefix_of` t) ->
  aria_expanded (nav_click doc t st).1 = aria_expanded st /\
  hidden (nav_click doc t st).1 = hidden st.
Proof.
  intros Hst Ht. unfold nav_click.
  assert (Hgen : forall ons acc,
    nav_listeners acc.1
    = nav_listeners (nav_onDOMContentLoaded doc empty_nav_page) ->
    (forall a, Some a ∈ ons -> a `prefix_of` t) ->
    aria_expanded
      (foldl (fun acc on => nav_click_on doc t on acc) acc ons).1
    = aria_expanded acc.1 /\
    hidden (foldl (fun acc on => nav_click_on doc t on acc) acc ons).1
    = hidden acc.1).
  { induction ons as [|on ons IH]; intros acc Hacc Hons; simpl;
      [split; reflexivity|].
    destruct (IH (nav_click_on doc t on acc)) as [-> ->].
    - rewrite nav_click_on_listeners. exact Hacc.
    - intros a Ha. apply Hons. right. exact Ha.
    - apply nav_click_on_attributes. intros ol Hol Hon ts sl Heq.
      rewrite ?Hacc in Hol.
      destruct (nav_onDOMContentLoaded_sub_toggle doc ol ts sl Hol Heq)
        as [H1 H2].
      apply (Ht ts H2). apply Hons. rewrite <- H1, Hon. left. }
  apply (Hgen _ (st, [])); [exact Hst|].
  intros a Ha. apply elem_of_app in Ha as [Ha|Ha].
  - apply list_elem_of_fmap in Ha as [a' [[= ->] Ha]].
    apply ancestors_or_self_prefix. exact Ha.
  - apply list_elem_of_singleton in Ha. discriminate.
Qed.

Lemma click_elsewhere_keeps_submenu_witness :
  aria_expanded
    (nav_click full_header_doc [0; 0; 4; 0]
       (nav_click full_header_doc [0; 0; 2]
          (nav_onDOMContentLoaded full_header_doc empty_nav_page)).1).1
  = aria_expanded
      (nav_click full_header_doc [0; 0; 2]
         (nav_onDOMContentLoaded full_header_doc empty_nav_page)).1.
Proof.
  apply (click_elsewhere_keeps_submenu full_header_doc _ [0; 0; 4; 0]);
    [vm_compute; reflexivity|].
  intros ts [= <-]. by_eval.
Defined.
